(** * auto_greenhouse_ml: the clustering and plant-matching script, model.py

    A shallow embedding of [model.py] and the properties its specification
    states about it.

    Numbers.  The script computes on Python floats.  The data columns hold
    finite floats, idealised here as the real numbers of the Standard
    Library ([R]): [x ** 0.5] is [sqrt], [abs] is [Rabs].  The one place
    where the script compares with [float('inf')], line 200, keeps the
    overflow of the float sum: a distance whose exact value lies beyond
    [float_max] is [inf] there.  Rounding, and data files that spell out
    [inf] or [nan], are outside the model.

    Strings.  A Python [str] is modelled by the UTF-8 bytes of its text
    ([String.string]); the en-dash U+2013 is the three bytes E2 80 93.

    Effects.  An exception is a value [Raise e] of type [result]; a function
    that also prints its diagnostics runs in [M], which pairs the printed
    lines with the result.  [random.randint] and [input] are oracles passed
    as arguments. *)

From Stdlib Require Import Reals Lra Lia ZArith String Ascii Bool Arith List.
From Stdlib Require Import Permutation Sorted.
Import ListNotations.

(* ================================================================== *)
(** ** The Python runtime the script relies on *)
(* ================================================================== *)

Module Py.

(** The exceptions the script can raise. *)
Inductive exn : Set :=
| ValueError
| TypeError
| IndexError
| NameError
| AttributeError
| UnboundLocalError
| KeyError
| EOFError.

Inductive result (A : Type) : Type :=
| Ok (a : A)
| Raise (e : exn).

Arguments Ok {A} a.
Arguments Raise {A} e.

Definition rbind {A B : Type} (r : result A) (f : A -> result B) : result B :=
  match r with
  | Ok a => f a
  | Raise e => Raise e
  end.

Fixpoint mapM {A B : Type} (f : A -> result B) (l : list A) : result (list B) :=
  match l with
  | [] => Ok []
  | a :: t => rbind (f a) (fun b => rbind (mapM f t) (fun bs => Ok (b :: bs)))
  end.

(** [l[i]] for a non-negative index. *)
Definition getitem {A : Type} (l : list A) (i : nat) : result A :=
  match nth_error l i with
  | Some a => Ok a
  | None => Raise IndexError
  end.

(** Printed diagnostics together with the result. *)
Definition M (A : Type) : Type := (list string * result A)%type.

Definition ret {A : Type} (a : A) : M A := ([], Ok a).
Definition raise {A : Type} (e : exn) : M A := ([], Raise e).
Definition print (s : string) : M unit := ([s], Ok tt).
Definition lift {A : Type} (r : result A) : M A := ([], r).

Definition bind {A B : Type} (m : M A) (f : A -> M B) : M B :=
  match m with
  | (out, Ok a) => let (out', r) := f a in (out ++ out', r)
  | (out, Raise e) => (out, Raise e)
  end.

Definition printed {A : Type} (m : M A) : list string := fst m.
Definition value {A : Type} (m : M A) : result A := snd m.

(** Comparisons of floats, as booleans. *)
Definition Rleb (x y : R) : bool := if Rle_dec x y then true else false.
Definition Rltb (x y : R) : bool := if Rlt_dec x y then true else false.
Definition Reqb (x y : R) : bool := if Req_dec_T x y then true else false.

(** [min(l)]: the first smallest item; [ValueError] on an empty list. *)
Definition min (l : list R) : result R :=
  match l with
  | [] => Raise ValueError
  | x :: t => Ok (fold_left (fun best item => if Rltb item best then item else best) t x)
  end.

(** [l.index(x)]: the first position holding [x]; [ValueError] if none. *)
Fixpoint index (x : R) (l : list R) : result nat :=
  match l with
  | [] => Raise ValueError
  | y :: t => if Reqb y x then Ok O else rbind (index x t) (fun n => Ok (S n))
  end.

(** [sum(l)], starting from 0. *)
Definition sum (l : list R) : R := fold_left Rplus l 0%R.

(** The largest finite float, [sys.float_info.max] = (2^53 - 1) * 2^971.
    A float sum whose exact value lies beyond it is [inf]. *)
Definition float_max : R := IZR ((2 ^ 53 - 1) * 2 ^ 971).

(** *** Strings *)

Definition is_space (c : ascii) : bool :=
  let n := nat_of_ascii c in
  ((9 <=? n) && (n <=? 13)) || ((28 <=? n) && (n <=? 32)).

Definition is_digit (c : ascii) : bool :=
  let n := nat_of_ascii c in (48 <=? n) && (n <=? 57).

Definition digit_value (c : ascii) : Z := Z.of_nat (nat_of_ascii c) - 48.

Fixpoint lstrip (s : string) : string :=
  match s with
  | String c s' => if is_space c then lstrip s' else s
  | EmptyString => EmptyString
  end.

Fixpoint rstrip (s : string) : string :=
  match s with
  | String c s' =>
      match rstrip s' with
      | EmptyString => if is_space c then EmptyString else String c EmptyString
      | r => String c r
      end
  | EmptyString => EmptyString
  end.

Definition strip (s : string) : string := rstrip (lstrip s).

(** The digits of a decimal literal, single underscores allowed between
    two digits. *)
Fixpoint digits (acc : Z) (after_digit : bool) (s : string) : option Z :=
  match s with
  | EmptyString => if after_digit then Some acc else None
  | String c s' =>
      if is_digit c then digits (10 * acc + digit_value c) true s'
      else if Ascii.eqb c "_" then (if after_digit then digits acc false s' else None)
      else None
  end.

(** [int(s)] on a string, base 10: surrounding whitespace, an optional
    sign, decimal digits.  Bytes outside ASCII are refused (CPython also
    accepts the decimal digits and spaces of other scripts). *)
Definition int (s : string) : result Z :=
  let body := strip s in
  let signed :=
    match body with
    | String "+" r => option_map (fun v => v) (digits 0 false r)
    | String "-" r => option_map Z.opp (digits 0 false r)
    | _ => digits 0 false body
    end in
  match signed with
  | Some v => Ok v
  | None => Raise ValueError
  end.

(** [s.replace(old, "-")] for the three-byte [old] = U+2013. *)
Fixpoint replace_en_dash (s : string) : string :=
  match s with
  | String c1 (String c2 (String c3 r as s2) as s1) =>
      if (nat_of_ascii c1 =? 226) && (nat_of_ascii c2 =? 128) && (nat_of_ascii c3 =? 147)
      then String "-" (replace_en_dash r)
      else String c1 (replace_en_dash s1)
  | String c r => String c (replace_en_dash r)
  | EmptyString => EmptyString
  end.

(** [s.split(sep)] for a one-character separator: always at least one
    field. *)
Fixpoint split (sep : ascii) (s : string) : list string :=
  match s with
  | EmptyString => [EmptyString]
  | String c r =>
      if Ascii.eqb c sep then EmptyString :: split sep r
      else match split sep r with
           | f :: fs => String c f :: fs
           | [] => [String c EmptyString]
           end
  end.

End Py.

Export Py.

Declare Scope py_scope.
Delimit Scope py_scope with py.
Notation "x <- m ;; f" := (bind m (fun x => f))
  (at level 61, m at next level, right associativity) : py_scope.
Notation "m ;;; f" := (bind m (fun _ => f))
  (at level 61, right associativity) : py_scope.
Notation "x <~ r ;; f" := (rbind r (fun x => f))
  (at level 61, r at next level, right associativity) : py_scope.
Open Scope py_scope.

(* ================================================================== *)
(** ** Range parsing and the best-plant scoring (lines 40-47, 181-205) *)
(* ================================================================== *)

Module RangeMatcher.

Definition error_converting (range_str : string) : string :=
  ("Error converting range: " ++ range_str)%string.

(** The body of the [try] block of [convert_range_to_tuple]: the tuple
    unpacking and both [int] calls raise [ValueError]. *)
Definition parse_range (range_str : string) : result (Z * Z) :=
  match split "-" (replace_en_dash range_str) with
  | [start; end_] => s <~ int start ;; e <~ int end_ ;; Ok (s, e)
  | _ => Raise ValueError
  end.

(** [convert_range_to_tuple]: [except ValueError] prints and returns
    [None]. *)
Definition convert_range_to_tuple (range_str : string) : M (option (Z * Z)) :=
  match parse_range range_str with
  | Ok t => ret (Some t)
  | Raise ValueError => print (error_converting range_str) ;;; ret None
  | Raise e => raise e
  end.

(** One entry of [plant_db]: the dict with the keys ['moisture'],
    ['light'] and ['temperature'], each a range string. *)
Record plant_ranges : Set := {
  moisture_range : string;
  light_range : string;
  temp_range : string
}.

Definition plant_db : Set := list (string * plant_ranges).

Record medians : Type := {
  median_temperature : R;
  median_light_level : R;
  median_moisture : R
}.

(** [t[i]] on the value returned by [convert_range_to_tuple]. *)
Definition subscript (t : option (Z * Z)) (i : nat) : result Z :=
  match t with
  | None => Raise TypeError
  | Some (a, b) =>
      match i with
      | O => Ok a
      | S O => Ok b
      | _ => Raise IndexError
      end
  end.

(** [if not (r[0] <= median <= r[1]): distance += abs(median - (r[0] + r[1]) / 2)] *)
Definition add_penalty (r : option (Z * Z)) (median distance : R) : result R :=
  lo <~ subscript r 0 ;;
  hi <~ subscript r 1 ;;
  if negb (Rleb (IZR lo) median && Rleb median (IZR hi))
  then Ok (distance + Rabs (median - (IZR lo + IZR hi) / 2))%R
  else Ok distance.

(** Lines 191-197. *)
Definition range_penalty (plant_moisture_range plant_light_range plant_temp_range : option (Z * Z))
    (med : medians) : result R :=
  let distance := 0%R in
  distance <~ add_penalty plant_moisture_range (median_moisture med) distance ;;
  distance <~ add_penalty plant_light_range (median_light_level med) distance ;;
  add_penalty plant_temp_range (median_temperature med) distance.

(** Lines 186-197: the distance of one plant. *)
Definition plant_distance (ranges : plant_ranges) (med : medians) : M R :=
  plant_moisture_range <- convert_range_to_tuple (moisture_range ranges) ;;
  plant_light_range <- convert_range_to_tuple (light_range ranges) ;;
  plant_temp_range <- convert_range_to_tuple (temp_range ranges) ;;
  lift (range_penalty plant_moisture_range plant_light_range plant_temp_range med).

(** Line 200, [distance < best_distance].  [best] is [None] while
    [best_plant] is [None] and [best_distance] is still [float('inf')]: a
    distance is below [float('inf')] unless the sum of lines 191-197 has
    overflowed, that is unless its exact value lies beyond [float_max]. *)
Definition is_closer (distance : R) (best : option (string * R)) : bool :=
  match best with
  | None => Rleb distance float_max
  | Some (_, best_distance) => Rltb distance best_distance
  end.

(** Lines 181-202. *)
Fixpoint best_plant_loop (db : plant_db) (med : medians) (best : option (string * R))
    : M (option (string * R)) :=
  match db with
  | [] => ret best
  | (db_plant_name, ranges) :: rest =>
      distance <- plant_distance ranges med ;;
      best_plant_loop rest med
        (if is_closer distance best then Some (db_plant_name, distance) else best)
  end.

(** Lines 181-205: the loop, then [best_plant.capitalize()], which raises
    on the [None] that is left when no distance was below [float('inf')]. *)
Definition suggest_best_plant (db : plant_db) (med : medians) : M (string * R) :=
  best <- best_plant_loop db med None ;;
  match best with
  | None => raise AttributeError
  | Some b => ret b
  end.

End RangeMatcher.

(* ================================================================== *)
(** ** Clustering and condition labels (lines 89-149) *)
(* ================================================================== *)

Module KMeans.

(** A row of the DataFrame, columns in the order the script builds them. *)
Record Point : Type := {
  temperature : R;
  light_level : R;
  moisture : R
}.

Definition DataFrame : Type := list Point.

(** [sum((p1[i] - p2[i]) ** 2 for i in range(len(p1))) ** 0.5] on the
    three columns. *)
Definition euclidean_distance (p1 p2 : Point) : R :=
  sqrt (sum [ (temperature p1 - temperature p2) ^ 2 ;
              (light_level p1 - light_level p2) ^ 2 ;
              (moisture p1 - moisture p2) ^ 2 ])%R.

(** [(a == b).all()] *)
Definition all_equal (a b : Point) : bool :=
  Reqb (temperature a) (temperature b)
  && Reqb (light_level a) (light_level b)
  && Reqb (moisture a) (moisture b).

(** [df.iloc[rows]] *)
Definition iloc (df : DataFrame) (rows : list nat) : result DataFrame :=
  mapM (getitem df) rows.

(** [rows.mean().values]: the mean of each column. *)
Definition mean (rows : DataFrame) : Point :=
  let n := INR (length rows) in
  {| temperature := sum (map temperature rows) / n;
     light_level := sum (map light_level rows) / n;
     moisture := sum (map moisture rows) / n |}%R.

(** [random.randint(a, b)]: the oracle's draw; an empty range raises. *)
Definition randint (draw : nat) (a b : Z) : result nat :=
  if (b <? a)%Z then Raise ValueError else Ok draw.

(** Line 95; [rnd j] is what the [j]-th call of [random.randint] returns. *)
Definition initial_centroids (df : DataFrame) (k : Z) (rnd : nat -> nat) : result (list Point) :=
  mapM (fun j => r <~ randint (rnd j) 0 (Z.of_nat (length df) - 1) ;; getitem df r)
       (seq 0 (Z.to_nat k)).

(** Lines 102-103: the position of the first smallest distance. *)
Definition nearest (p : Point) (centroids : list Point) : result nat :=
  let distances := map (euclidean_distance p) centroids in
  m <~ min distances ;;
  index m distances.

Fixpoint set_nth {A : Type} (l : list A) (n : nat) (a : A) : list A :=
  match l, n with
  | [], _ => []
  | _ :: t, O => a :: t
  | x :: t, S n' => x :: set_nth t n' a
  end.

(** [clusters[cluster_index].append(i)] *)
Definition append_to (clusters : list (list nat)) (cluster_index i : nat)
    : result (list (list nat)) :=
  cluster <~ getitem clusters cluster_index ;;
  Ok (set_nth clusters cluster_index (cluster ++ [i])).

(** Lines 101-104, from row [i] on. *)
Fixpoint assign_rows (rows : DataFrame) (i : nat) (centroids : list Point)
    (clusters : list (list nat)) : result (list (list nat)) :=
  match rows with
  | [] => Ok clusters
  | p :: rest =>
      cluster_index <~ nearest p centroids ;;
      clusters <~ append_to clusters cluster_index i ;;
      assign_rows rest (S i) centroids clusters
  end.

(** Lines 98-104. *)
Definition assignment_step (df : DataFrame) (k : Z) (centroids : list Point)
    : result (list (list nat)) :=
  assign_rows df 0 centroids (repeat [] (Z.to_nat k)).

(** Lines 108-112. *)
Fixpoint update_loop (df : DataFrame) (clusters : list (list nat))
    (centroids new_centroids : list Point) : result (list Point) :=
  match clusters with
  | [] => Ok new_centroids
  | cluster :: rest =>
      c <~ match cluster with
           | [] => getitem centroids (length new_centroids)
           | _ :: _ => rows <~ iloc df cluster ;; Ok (mean rows)
           end ;;
      update_loop df rest centroids (new_centroids ++ [c])
  end.

(** Lines 107-112. *)
Definition update_step (df : DataFrame) (clusters : list (list nat))
    (centroids : list Point) : result (list Point) :=
  update_loop df clusters centroids [].

(** Line 114: [all(...)] stops at the first centroid that differs. *)
Fixpoint all_unchanged (idxs : list nat) (new_centroids centroids : list Point) : result bool :=
  match idxs with
  | [] => Ok true
  | i :: rest =>
      a <~ getitem new_centroids i ;;
      b <~ getitem centroids i ;;
      if all_equal a b then all_unchanged rest new_centroids centroids else Ok false
  end.

Definition unchanged (k : Z) (new_centroids centroids : list Point) : result bool :=
  all_unchanged (seq 0 (Z.to_nat k)) new_centroids centroids.

(** How the loop of line 97 was left: by [break], or by running out of
    iterations. *)
Inductive exit : Set := Converged | IterationCap.

(** Lines 97-119.  [clusters] is unbound until the first iteration has
    run. *)
Fixpoint iterate (df : DataFrame) (k : Z) (iterations : nat)
    (clusters : option (list (list nat))) (centroids : list Point)
    : result (exit * (list (list nat) * list Point)) :=
  match iterations with
  | O =>
      match clusters with
      | None => Raise UnboundLocalError
      | Some clusters => Ok (IterationCap, (clusters, centroids))
      end
  | S iterations =>
      clusters <~ assignment_step df k centroids ;;
      new_centroids <~ update_step df clusters centroids ;;
      stop <~ unchanged k new_centroids centroids ;;
      if stop then Ok (Converged, (clusters, centroids))
      else iterate df k iterations (Some clusters) new_centroids
  end.

(** [kmeans_clustering], with the way the loop ended. *)
Definition kmeans_run (df : DataFrame) (k max_iterations : Z) (rnd : nat -> nat)
    : result (exit * (list (list nat) * list Point)) :=
  centroids <~ initial_centroids df k rnd ;;
  iterate df k (Z.to_nat max_iterations) None centroids.

Definition kmeans_clustering (df : DataFrame) (k max_iterations : Z) (rnd : nat -> nat)
    : result (list (list nat) * list Point) :=
  r <~ kmeans_run df k max_iterations rnd ;; Ok (snd r).

(** Lines 127-128 for one cluster. *)
Fixpoint label_cluster (cluster_labels : list nat) (cluster_idx : nat) (cluster : list nat)
    : result (list nat) :=
  match cluster with
  | [] => Ok cluster_labels
  | index :: rest =>
      _ <~ getitem cluster_labels index ;;
      label_cluster (set_nth cluster_labels index cluster_idx) cluster_idx rest
  end.

Fixpoint label_clusters (cluster_labels : list nat) (cluster_idx : nat)
    (clusters : list (list nat)) : result (list nat) :=
  match clusters with
  | [] => Ok cluster_labels
  | cluster :: rest =>
      cluster_labels <~ label_cluster cluster_labels cluster_idx cluster ;;
      label_clusters cluster_labels (S cluster_idx) rest
  end.

(** Lines 125-128. *)
Definition cluster_labels_of (df : DataFrame) (clusters : list (list nat)) : result (list nat) :=
  label_clusters (repeat O (length df)) 0 clusters.

(** Lines 139-146 for one row. *)
Definition condition_label (point : Point) (cluster_idx : nat) (centroids : list Point)
    (optimal_threshold : R) : result string :=
  centroid <~ getitem centroids cluster_idx ;;
  let distance := euclidean_distance point centroid in
  if Rleb distance optimal_threshold then Ok "Optimal"%string else Ok "Non-optimal"%string.

Definition optimal_threshold : R := 2.

(** Lines 136-146. *)
Fixpoint condition_labels_of (rows : DataFrame) (cluster_labels : list nat) (i : nat)
    (centroids : list Point) : result (list string) :=
  match rows with
  | [] => Ok []
  | point :: rest =>
      cluster_idx <~ getitem cluster_labels i ;;
      label <~ condition_label point cluster_idx centroids optimal_threshold ;;
      labels <~ condition_labels_of rest cluster_labels (S i) centroids ;;
      Ok (label :: labels)
  end.

End KMeans.

(* ================================================================== *)
(** ** The script (lines 49-217) *)
(* ================================================================== *)

Module Script.

Import RangeMatcher KMeans.

Definition length_error : string :=
  "Error: The data should contain exactly 25 values for each parameter.".
Definition no_plant_data : string := "No plant data available.".
Definition plant_not_found : string :=
  "Plant not found. Please choose a valid plant from the list.".

(** [name in plant_db] and [plant_db[name]] *)
Definition contains (db : plant_db) (name : string) : bool :=
  existsb (fun entry => String.eqb (fst entry) name) db.

Definition lookup (db : plant_db) (name : string) : result plant_ranges :=
  match find (fun entry => String.eqb (fst entry) name) db with
  | Some entry => Ok (snd entry)
  | None => Raise KeyError
  end.

(** Lines 81-84; [answers] are the successive values of
    [input(...).strip().lower()], and [input] raises once they run out. *)
Fixpoint ask_plant_name (db : plant_db) (plant_name : string) (answers : list string)
    : M string :=
  if contains db plant_name then ret plant_name
  else
    match answers with
    | [] => raise EOFError
    | answer :: rest =>
        (if contains db answer then ret tt else print plant_not_found) ;;;
        ask_plant_name db answer rest
    end.

(** Lines 59-66: one row per position of the three columns. *)
Definition make_df (temperature_data light_level_data moisture_data : list R) : DataFrame :=
  map (fun row => {| temperature := fst row;
                     light_level := fst (snd row);
                     moisture := snd (snd row) |})
      (combine temperature_data (combine light_level_data moisture_data)).

Fixpoint insert_sorted (x : R) (l : list R) : list R :=
  match l with
  | [] => [x]
  | y :: t => if Rleb x y then x :: l else y :: insert_sorted x t
  end.

Definition sorted (l : list R) : list R := fold_right insert_sorted [] l.

(** [Series.median()]: the middle value, or the mean of the two middle
    values.  (On an empty column pandas answers NaN; the script only
    takes medians of 25 values.) *)
Definition median (l : list R) : R :=
  let s := sorted l in
  let n := length l in
  if Nat.even n then ((nth (n / 2 - 1) s 0 + nth (n / 2) s 0) / 2)%R
  else nth (n / 2) s 0%R.

(** What the script has computed when it reaches the plots. *)
Record report : Type := {
  clusters : list (list nat);
  centroids : list Point;
  cluster_labels : list nat;
  condition_labels : list string;
  median_conditions : medians;
  best_plant : string;
  best_distance : R
}.

(** [r[0]], [r[1]] of the three printed ranges (lines 176-178, 215-217). *)
Definition print_ranges (temp light moisture : option (Z * Z)) : result unit :=
  _ <~ subscript temp 0 ;; _ <~ subscript temp 1 ;;
  _ <~ subscript light 0 ;; _ <~ subscript light 1 ;;
  _ <~ subscript moisture 0 ;; _ <~ subscript moisture 1 ;;
  Ok tt.

(** Lines 49-217.  The three columns and [plant_db] are what the loaders
    return; tables and plots are not modelled.  The result is [None] when
    the script ends at the length check. *)
Definition main (temperature_data moisture_data light_level_data : list R)
    (db : plant_db) (answers : list string) (rnd : nat -> nat) : M (option report) :=
  if negb (length temperature_data =? 25) || negb (length moisture_data =? 25)
     || negb (length light_level_data =? 25)
  then print length_error ;;; ret None
  else
    let df := make_df temperature_data light_level_data moisture_data in
    plant_name <- match db with
                  | [] => print no_plant_data ;;; ret None
                  | _ :: _ => name <- ask_plant_name db EmptyString answers ;; ret (Some name)
                  end ;;
    clustering <- lift (kmeans_clustering df 3 100 rnd) ;;
    let (clusters, centroids) := clustering in
    cluster_labels <- lift (cluster_labels_of df clusters) ;;
    condition_labels <- lift (condition_labels_of df cluster_labels 0 centroids) ;;
    let med := {| median_temperature := median temperature_data;
                  median_light_level := median light_level_data;
                  median_moisture := median moisture_data |} in
    plant_name <- match plant_name with
                  | None => raise NameError
                  | Some name => ret name
                  end ;;
    optimal_selected_plant_data <- lift (lookup db plant_name) ;;
    select_plant_moisture_range <- convert_range_to_tuple (moisture_range optimal_selected_plant_data) ;;
    select_plant_light_range <- convert_range_to_tuple (light_range optimal_selected_plant_data) ;;
    select_plant_temp_range <- convert_range_to_tuple (temp_range optimal_selected_plant_data) ;;
    lift (print_ranges select_plant_temp_range select_plant_light_range select_plant_moisture_range) ;;;
    best <- suggest_best_plant db med ;;
    optimal_best_plant_data <- lift (lookup db (fst best)) ;;
    best_plant_moisture_range <- convert_range_to_tuple (moisture_range optimal_best_plant_data) ;;
    best_plant_light_range <- convert_range_to_tuple (light_range optimal_best_plant_data) ;;
    best_plant_temp_range <- convert_range_to_tuple (temp_range optimal_best_plant_data) ;;
    lift (print_ranges best_plant_temp_range best_plant_light_range best_plant_moisture_range) ;;;
    ret (Some {| clusters := clusters;
                 centroids := centroids;
                 cluster_labels := cluster_labels;
                 condition_labels := condition_labels;
                 median_conditions := med;
                 best_plant := fst best;
                 best_distance := snd best |}).

End Script.

(* ================================================================== *)
(** ** Specification-side notions and the inputs of the scenarios *)
(* ================================================================== *)

Module Scenario.

Import RangeMatcher KMeans.

(** What one dimension adds to the penalty, in the specification's words:
    nothing when the median lies in [[lo, hi]], its distance to the
    midpoint when it lies strictly outside. *)
Definition contribution (lo hi : Z) (median c : R) : Prop :=
  ((IZR lo <= median <= IZR hi)%R -> c = 0%R) /\
  ((median < IZR lo \/ IZR hi < median)%R ->
   c = Rabs (median - (IZR lo + IZR hi) / 2)%R).

(** A widening of [[lo, hi]] to [[lo', hi']] that either reaches the
    median or moves only the bound on the median's side. *)
Definition widened_towards (lo hi lo' hi' : Z) (median : R) : Prop :=
  (lo <= hi)%Z /\ (lo' <= lo)%Z /\ (hi <= hi')%Z /\
  ((IZR lo' <= median <= IZR hi')%R \/
   (IZR hi < median)%R /\ lo' = lo \/
   (median < IZR lo)%R /\ hi' = hi).

Definition rose : plant_ranges :=
  {| moisture_range := "40-60"; light_range := "400-600"; temp_range := "15-25" |}.

Definition cactus : plant_ranges :=
  {| moisture_range := "10-20"; light_range := "800-1000"; temp_range := "25-35" |}.

Definition observed : medians :=
  {| median_temperature := 20; median_light_level := 500; median_moisture := 50 |}.

(** A record whose temperature range lies below the observed median, and
    the same record with the lower temperature bound moved further down. *)
Definition fern : plant_ranges :=
  {| moisture_range := "40-60"; light_range := "400-600"; temp_range := "10-18" |}.

Definition fern_wider : plant_ranges :=
  {| moisture_range := "40-60"; light_range := "400-600"; temp_range := "0-18" |}.

(** The same record with the upper temperature bound moved up instead. *)
Definition fern_higher : plant_ranges :=
  {| moisture_range := "40-60"; light_range := "400-600"; temp_range := "10-19" |}.

Definition broken : plant_ranges :=
  {| moisture_range := "abc"; light_range := "400-600"; temp_range := "15-25" |}.


(** Rows that differ in temperature only. *)
Definition at_temperature (t : R) : Point :=
  {| temperature := t; light_level := 500; moisture := 50 |}.

Definition two_rows : DataFrame := [at_temperature 0; at_temperature 10].

(** The 25 identical rows of the specification's scenario. *)
Definition identical_rows : DataFrame := repeat (at_temperature 20) 25.

(** The three columns of that scenario. *)
Definition temperatures : list R := repeat 20%R 25.
Definition moistures : list R := repeat 50%R 25.
Definition light_levels : list R := repeat 500%R 25.

(** A column that is one value short. *)
Definition short_column : list R := repeat 20%R 24.

(** The database of the specification's scenario, and one whose only
    entry has a malformed moisture range. *)
Definition two_plants : plant_db := [("rose"%string, rose); ("cactus"%string, cactus)].

Definition broken_plants : plant_db := [("rose"%string, broken)].

(** A random source whose every draw is the first row. *)
Definition first_row (j : nat) : nat := O.


Definition largest : medians :=
  {| median_temperature := float_max;
     median_light_level := float_max;
     median_moisture := float_max |}.

End Scenario.

(* ================================================================== *)
(** ** Loading the plant database (lines 16-37, 69) *)
(* ================================================================== *)

Module Loader.

Import RangeMatcher Script.

(** [s.split()]: the fields between runs of whitespace.  As for [int],
    only the ASCII spaces count (CPython also splits at the spaces of
    other scripts). *)
Fixpoint words (s : string) : list string :=
  match s with
  | EmptyString => []
  | String c r =>
      if is_space c then words r
      else
        match r with
        | EmptyString => [String c EmptyString]
        | String c' _ =>
            if is_space c' then String c EmptyString :: words r
            else
              match words r with
              | w :: ws => String c w :: ws
              | [] => [String c EmptyString]
              end
        end
  end.

(** [s.lower()] on the ASCII capitals; other bytes are kept (CPython also
    lowers the capitals of other scripts). *)
Definition lower_char (c : ascii) : ascii :=
  let n := nat_of_ascii c in
  if (65 <=? n) && (n <=? 90) then ascii_of_nat (n + 32) else c.

Fixpoint lower (s : string) : string :=
  match s with
  | EmptyString => EmptyString
  | String c r => String (lower_char c) (lower r)
  end.

(** [plant_db[key] = value]: a key already there keeps its place and
    takes the new value. *)
Fixpoint setitem (db : plant_db) (key : string) (value : plant_ranges) : plant_db :=
  match db with
  | [] => [(key, value)]
  | (k, v) :: rest =>
      if String.eqb k key then (k, value) :: rest
      else (k, v) :: setitem rest key value
  end.

(** Line 21: [line.strip() and not line.startswith("Plant")] *)
Definition is_data_line (line : string) : bool :=
  match strip line with
  | EmptyString => false
  | String _ _ => negb (String.prefix "Plant" line)
  end.

(** Lines 20-33, on the lines of the file as iterating over it gives
    them. *)
Fixpoint load_lines (lines : list string) (db : plant_db) : result plant_db :=
  match lines with
  | [] => Ok db
  | line :: rest =>
      if is_data_line line then
        let parts := words line in
        plant_name <~ getitem parts 0 ;;
        moisture_range <~ getitem parts 1 ;;
        light_range <~ getitem parts 2 ;;
        temp_range <~ getitem parts 3 ;;
        load_lines rest
          (setitem db (lower plant_name)
             {| moisture_range := moisture_range;
                light_range := light_range;
                temp_range := temp_range |})
      else load_lines rest db
  end.

Definition file_not_found (file_name : string) : string :=
  ("File " ++ file_name ++ " not found.")%string.

(** [load_plant_database]; [file] is [None] when [open] raises
    [FileNotFoundError], and the lines of the file otherwise. *)
Definition load_plant_database (file_name : string) (file : option (list string))
    : M plant_db :=
  match file with
  | Some lines => lift (load_lines lines [])
  | None => print (file_not_found file_name) ;;; ret []
  end.

(** Lines 55-217 with the database read from its file: the file is only
    opened once the three columns have passed the length check. *)
Definition main_with_database (temperature_data moisture_data light_level_data : list R)
    (file : option (list string)) (answers : list string) (rnd : nat -> nat)
    : M (option report) :=
  if negb (length temperature_data =? 25) || negb (length moisture_data =? 25)
     || negb (length light_level_data =? 25)
  then print length_error ;;; ret None
  else
    db <- load_plant_database "plantdb.txt" file ;;
    main temperature_data moisture_data light_level_data db answers rnd.

End Loader.

(* ================================================================== *)
(** ** The ranges as the script prints them (lines 176-178, 215-217) *)
(* ================================================================== *)

Module Printing.

(** The decimal digits of [n], most significant first, put before [acc]. *)
Fixpoint decimal (fuel n : nat) (acc : string) : string :=
  match fuel with
  | O => acc
  | S fuel' =>
      let acc' := String (ascii_of_nat (48 + n mod 10)) acc in
      if (n / 10 =? 0)%nat then acc' else decimal fuel' (n / 10) acc'
  end.

(** [str(z)] of an [int], which is what [{z}] in an f-string gives. *)
Definition str (z : Z) : string :=
  match z with
  | Z0 => "0"
  | Zpos p => decimal (S (Pos.to_nat p)) (Pos.to_nat p) EmptyString
  | Zneg p => String "-" (decimal (S (Pos.to_nat p)) (Pos.to_nat p) EmptyString)
  end.

(** The [{r[0]}-{r[1]}] of the printed lines. *)
Definition format_range (r : Z * Z) : string :=
  (str (fst r) ++ "-" ++ str (snd r))%string.

End Printing.

(* ================================================================== *)
(** ** Notions used by the further properties *)
(* ================================================================== *)

Module Cases.

Import RangeMatcher KMeans Script.

(** Whether a character occurs in a string. *)
Fixpoint occurs (c : ascii) (s : string) : bool :=
  match s with
  | EmptyString => false
  | String c' s' => Ascii.eqb c' c || occurs c s'
  end.

(** Whether a string consists of decimal digits. *)
Fixpoint all_digits (s : string) : bool :=
  match s with
  | EmptyString => true
  | String c s' => is_digit c && all_digits s'
  end.

(** A plant file: the header, two plants, one of them given again in
    capitals with other ranges, and a blank line. *)
Definition plant_file : list string :=
  [ "Plant Moisture Light Temperature" ++ String (ascii_of_nat 10) EmptyString;
    "Rose 40-60 400-600 15-25" ++ String (ascii_of_nat 10) EmptyString;
    "Cactus 10-20 800-1000 25-35" ++ String (ascii_of_nat 10) EmptyString;
    String (ascii_of_nat 10) EmptyString;
    "ROSE 45-65 400-600 15-25" ++ String (ascii_of_nat 10) EmptyString ]%string.

(** The en-dash U+2013, as its three UTF-8 bytes. *)
Definition en_dash : string :=
  String (ascii_of_nat 226) (String (ascii_of_nat 128) (String (ascii_of_nat 147) EmptyString)).

End Cases.

(* ================================================================== *)
(** * Properties *)
(* ================================================================== *)

Import RangeMatcher KMeans Script Scenario.

Local Open Scope R_scope.

(** ** Comparisons and the monads *)

Lemma Rleb_true_iff (x y : R) : Rleb x y = true <-> x <= y.
Proof. unfold Rleb; destruct (Rle_dec x y); split; intros; try discriminate; tauto. Qed.

Lemma Rleb_false_iff (x y : R) : Rleb x y = false <-> y < x.
Proof.
  unfold Rleb; destruct (Rle_dec x y); split; intros;
    try discriminate; try reflexivity; lra.
Qed.

Lemma Rleb_refl (x : R) : Rleb x x = true.
Proof. apply Rleb_true_iff. lra. Qed.

Lemma Rltb_true_iff (x y : R) : Rltb x y = true <-> x < y.
Proof. unfold Rltb; destruct (Rlt_dec x y); split; intros; try discriminate; tauto. Qed.

Lemma Rltb_false_iff (x y : R) : Rltb x y = false <-> y <= x.
Proof.
  unfold Rltb; destruct (Rlt_dec x y); split; intros;
    try discriminate; try reflexivity; lra.
Qed.

Lemma Reqb_true_iff (x y : R) : Reqb x y = true <-> x = y.
Proof. unfold Reqb; destruct (Req_dec_T x y); split; intros; try discriminate; tauto. Qed.

Lemma Reqb_refl (x : R) : Reqb x x = true.
Proof. now apply Reqb_true_iff. Qed.

(** Settles the comparisons of a goal whose operands [lra] can order. *)
Ltac order_reals :=
  repeat match goal with
  | |- context [Rleb ?x ?y] =>
      first [ rewrite (proj2 (Rleb_true_iff x y)) by lra
            | rewrite (proj2 (Rleb_false_iff x y)) by lra ]
  | |- context [Rltb ?x ?y] =>
      first [ rewrite (proj2 (Rltb_true_iff x y)) by lra
            | rewrite (proj2 (Rltb_false_iff x y)) by lra ]
  end.

Lemma bind_ret_l {A B : Type} (a : A) (f : A -> M B) : bind (ret a) f = f a.
Proof. unfold bind, ret. now destruct (f a). Qed.

Lemma bind_lift_ok {A B : Type} (a : A) (f : A -> M B) : bind (lift (Ok a)) f = f a.
Proof. apply bind_ret_l. Qed.

(** ** Range parsing *)

Lemma convert_parsed (s : string) (t : Z * Z) :
  parse_range s = Ok t -> convert_range_to_tuple s = ret (Some t).
Proof. unfold convert_range_to_tuple. now intros ->. Qed.

Lemma parse_range_raises (s : string) (e : exn) :
  parse_range s = Raise e -> e = ValueError.
Proof.
  unfold parse_range, int.
  destruct (split "-" (replace_en_dash s)) as [| a [| b [| c l]]]; try congruence.
  repeat match goal with
  | |- context [match ?x with Some _ => _ | None => _ end] => destruct x
  end; simpl; congruence.
Qed.

Lemma convert_unparsed (s : string) :
  (forall t, parse_range s <> Ok t) ->
  convert_range_to_tuple s = ([error_converting s], Ok None).
Proof.
  intros H. unfold convert_range_to_tuple.
  destruct (parse_range s) as [t | e] eqn:E.
  - now destruct (H t).
  - now rewrite (parse_range_raises _ _ E).
Qed.

Lemma convert_cases (s : string) :
  (exists t, convert_range_to_tuple s = ([], Ok (Some t))) \/
  convert_range_to_tuple s = ([error_converting s], Ok None).
Proof.
  destruct (parse_range s) as [t | e] eqn:E.
  - left. exists t. now apply convert_parsed.
  - right. apply convert_unparsed. congruence.
Qed.

Lemma add_penalty_some (lo hi : Z) (median d : R) :
  exists d', add_penalty (Some (lo, hi)) median d = Ok d'.
Proof.
  unfold add_penalty, subscript, rbind.
  destruct (negb _); eauto.
Qed.

(** A [None] among the three converted ranges stops the penalty at the
    first subscript of it. *)
Lemma range_penalty_none (m l t : option (Z * Z)) (med : medians) :
  m = None \/ l = None \/ t = None -> range_penalty m l t med = Raise TypeError.
Proof.
  intros H. unfold range_penalty.
  destruct m as [[mlo mhi] |]; [| reflexivity].
  destruct (add_penalty_some mlo mhi (median_moisture med) 0) as [d1 ->]. cbn [rbind].
  destruct l as [[llo lhi] |]; [| reflexivity].
  destruct (add_penalty_some llo lhi (median_light_level med) d1) as [d2 ->]. cbn [rbind].
  destruct t as [[tlo thi] |]; [| reflexivity].
  destruct H as [H | [H | H]]; discriminate.
Qed.

(** C9, as the specification states it, fails: on "abc"
    [convert_range_to_tuple] signals no error.  It catches the
    [ValueError] itself, prints a line and returns [None] as an ordinary
    value; no exception leaves it. *)
Lemma malformed_range_raises_nothing :
  value (convert_range_to_tuple "abc") = Ok None /\
  ~ (exists e, value (convert_range_to_tuple "abc") = Raise e).
Proof.
  split; [reflexivity |]. intros [e He]. discriminate He.
Qed.

(** C9, amended.  [convert_range_to_tuple "abc"] raises nothing: it
    prints "Error converting range: abc" and returns [None], not a pair.
    No input is given a default: a pair is returned only when the text
    has exactly two fields around the dash and [int] accepts both, and
    then it is the pair of their values; in every other case the message
    is printed and [None] returned.  The failure surfaces in the caller
    only: the scoring of a record with such a range raises [TypeError]
    at its first subscript instead of producing a penalty. *)
Theorem convert_range_to_tuple_malformed :
  convert_range_to_tuple "abc" = (["Error converting range: abc"%string], Ok None) /\
  (forall s lo hi,
      value (convert_range_to_tuple s) = Ok (Some (lo, hi)) ->
      exists start end_,
        split "-" (replace_en_dash s) = [start; end_] /\
        int start = Ok lo /\ int end_ = Ok hi) /\
  (forall s,
      (exists t, convert_range_to_tuple s = ([], Ok (Some t))) \/
      convert_range_to_tuple s = ([error_converting s], Ok None)) /\
  (forall (ranges : plant_ranges) (med : medians),
      value (convert_range_to_tuple (moisture_range ranges)) = Ok None \/
      value (convert_range_to_tuple (light_range ranges)) = Ok None \/
      value (convert_range_to_tuple (temp_range ranges)) = Ok None ->
      value (plant_distance ranges med) = Raise TypeError).
Proof.
  split; [reflexivity | split; [| split]].
  - intros s lo hi. unfold convert_range_to_tuple, parse_range.
    destruct (split "-" (replace_en_dash s)) as [| a [| b [| c l]]]; simpl;
      try discriminate.
    destruct (int a) as [x | e1] eqn:Ea; simpl.
    + destruct (int b) as [y | e2] eqn:Eb; simpl.
      * intros [= -> ->]. now exists a, b.
      * destruct e2; discriminate.
    + destruct e1; discriminate.
  - exact convert_cases.
  - intros ranges med H. unfold plant_distance.
    destruct (convert_cases (moisture_range ranges)) as [[m Em] | Em];
      destruct (convert_cases (light_range ranges)) as [[l El] | El];
      destruct (convert_cases (temp_range ranges)) as [[t Et] | Et];
      rewrite Em, El, Et in *; cbn [value snd] in H;
      cbn [bind lift value snd app];
      try (now apply range_penalty_none; auto).
    destruct H as [H | [H | H]]; discriminate.
Qed.

(** ** The penalty of one plant *)

Lemma plant_distance_parsed (ranges : plant_ranges) (med : medians) (m l t : Z * Z) :
  parse_range (moisture_range ranges) = Ok m ->
  parse_range (light_range ranges) = Ok l ->
  parse_range (temp_range ranges) = Ok t ->
  plant_distance ranges med = lift (range_penalty (Some m) (Some l) (Some t) med).
Proof.
  intros Hm Hl Ht. unfold plant_distance.
  rewrite (convert_parsed _ _ Hm), bind_ret_l.
  rewrite (convert_parsed _ _ Hl), bind_ret_l.
  rewrite (convert_parsed _ _ Ht), bind_ret_l.
  reflexivity.
Qed.

Lemma add_penalty_inside (lo hi : Z) (median d : R) :
  IZR lo <= median <= IZR hi -> add_penalty (Some (lo, hi)) median d = Ok d.
Proof.
  intros [H1 H2]. unfold add_penalty, subscript, rbind.
  now rewrite (proj2 (Rleb_true_iff _ _) H1), (proj2 (Rleb_true_iff _ _) H2).
Qed.

Lemma add_penalty_outside (lo hi : Z) (median d : R) :
  median < IZR lo \/ IZR hi < median ->
  add_penalty (Some (lo, hi)) median d = Ok (d + Rabs (median - (IZR lo + IZR hi) / 2)).
Proof.
  intros H. unfold add_penalty, subscript, rbind.
  destruct H as [H | H].
  - now rewrite (proj2 (Rleb_false_iff _ _) H).
  - rewrite (proj2 (Rleb_false_iff _ _) H). now rewrite andb_false_r.
Qed.

Lemma inside_or_outside (lo hi : Z) (median : R) :
  IZR lo <= median <= IZR hi \/ (median < IZR lo \/ IZR hi < median).
Proof.
  destruct (Rle_dec (IZR lo) median); destruct (Rle_dec median (IZR hi)); lra.
Qed.

Lemma add_penalty_contribution (lo hi : Z) (median d : R) :
  exists c, add_penalty (Some (lo, hi)) median d = Ok (d + c) /\
            contribution lo hi median c /\ 0 <= c.
Proof.
  destruct (inside_or_outside lo hi median) as [H | H].
  - exists 0. rewrite Rplus_0_r. split; [now apply add_penalty_inside |].
    split; [split; intros H'; lra | lra].
  - exists (Rabs (median - (IZR lo + IZR hi) / 2)).
    split; [now apply add_penalty_outside |].
    split; [split; intros H'; [lra | reflexivity] | apply Rabs_pos].
Qed.

Lemma plant_distance_contributions (ranges : plant_ranges) (med : medians)
    (mlo mhi llo lhi tlo thi : Z) :
  parse_range (moisture_range ranges) = Ok (mlo, mhi) ->
  parse_range (light_range ranges) = Ok (llo, lhi) ->
  parse_range (temp_range ranges) = Ok (tlo, thi) ->
  exists ct cl cm,
    plant_distance ranges med = ([], Ok (ct + cl + cm)) /\
    contribution tlo thi (median_temperature med) ct /\
    contribution llo lhi (median_light_level med) cl /\
    contribution mlo mhi (median_moisture med) cm.
Proof.
  intros Hm Hl Ht.
  rewrite (plant_distance_parsed _ med _ _ _ Hm Hl Ht).
  unfold lift, range_penalty.
  destruct (add_penalty_contribution mlo mhi (median_moisture med) 0)
    as (cm & -> & Cm & _).
  unfold rbind at 1.
  destruct (add_penalty_contribution llo lhi (median_light_level med) (0 + cm))
    as (cl & -> & Cl & _).
  unfold rbind.
  destruct (add_penalty_contribution tlo thi (median_temperature med) (0 + cm + cl))
    as (ct & -> & Ct & _).
  exists ct, cl, cm. repeat split; try apply Ct; try apply Cl; try apply Cm.
  do 2 f_equal. ring.
Qed.

(** C1.  For a record whose three range strings convert to the bounds
    [(mlo, mhi)], [(llo, lhi)] and [(tlo, thi)], the loop body computes,
    printing nothing, the sum over temperature, light and moisture of the
    dimension's contribution: 0 when the median lies in the inclusive range,
    [|median - (lo + hi) / 2|] when it lies strictly outside.  When the
    bounds contain all three medians the penalty is exactly 0. *)
Theorem penalty_sums_outside_deviations :
  forall (ranges : plant_ranges) (med : medians) (mlo mhi llo lhi tlo thi : Z),
    parse_range (moisture_range ranges) = Ok (mlo, mhi) ->
    parse_range (light_range ranges) = Ok (llo, lhi) ->
    parse_range (temp_range ranges) = Ok (tlo, thi) ->
    (exists ct cl cm,
        plant_distance ranges med = ([], Ok (ct + cl + cm)) /\
        contribution tlo thi (median_temperature med) ct /\
        contribution llo lhi (median_light_level med) cl /\
        contribution mlo mhi (median_moisture med) cm) /\
    (IZR tlo <= median_temperature med <= IZR thi ->
     IZR llo <= median_light_level med <= IZR lhi ->
     IZR mlo <= median_moisture med <= IZR mhi ->
     plant_distance ranges med = ([], Ok 0)).
Proof.
  intros ranges med mlo mhi llo lhi tlo thi Hm Hl Ht. split.
  - now apply plant_distance_contributions.
  - intros It Il Im.
    rewrite (plant_distance_parsed _ med _ _ _ Hm Hl Ht).
    unfold lift, range_penalty.
    rewrite (add_penalty_inside _ _ _ _ Im). unfold rbind.
    rewrite (add_penalty_inside _ _ _ _ Il).
    now rewrite (add_penalty_inside _ _ _ _ It).
Qed.

Lemma penalty_sums_outside_deviations_witness :
  plant_distance rose observed = ([], Ok 0).
Proof.
  apply (penalty_sums_outside_deviations rose observed 40 60 400 600 15 25);
    try reflexivity; simpl; lra.
Defined.

(** ** Widening a range *)

Lemma contribution_nonneg (lo hi : Z) (median c : R) :
  contribution lo hi median c -> 0 <= c.
Proof.
  intros [H1 H2]. destruct (inside_or_outside lo hi median) as [H | H].
  - rewrite (H1 H). lra.
  - rewrite (H2 H). apply Rabs_pos.
Qed.

Lemma widened_contribution (lo hi lo' hi' : Z) (median c c' : R) :
  widened_towards lo hi lo' hi' median ->
  contribution lo hi median c ->
  contribution lo' hi' median c' ->
  c' <= c.
Proof.
  intros (Hle & Hlo & Hhi & Hcase) Hc Hc'.
  apply IZR_le in Hle, Hlo, Hhi.
  pose proof (contribution_nonneg _ _ _ _ Hc) as Hpos.
  destruct Hc as [_ Hout]. destruct Hc' as [Hin' Hout'].
  destruct Hcase as [Hreach | [[Habove ->] | [Hbelow ->]]].
  - rewrite (Hin' Hreach). exact Hpos.
  - rewrite (Hout (or_intror Habove)).
    destruct (inside_or_outside lo hi' median) as [H | H].
    + rewrite (Hin' H). apply Rabs_pos.
    + rewrite (Hout' H). unfold Rabs. repeat destruct Rcase_abs; lra.
  - rewrite (Hout (or_introl Hbelow)).
    destruct (inside_or_outside lo' hi median) as [H | H].
    + rewrite (Hin' H). apply Rabs_pos.
    + rewrite (Hout' H). unfold Rabs. repeat destruct Rcase_abs; lra.
Qed.

(** C2, as the specification states it, fails: [fern] does not contain the
    observed temperature (20 lies above [[10, 18]]), [fern_wider] only
    lowers the lower temperature bound to 0, and the penalty grows from 6
    to 11, because the midpoint moves away from the median. *)
Lemma widening_can_increase_penalty :
  parse_range (temp_range fern) = Ok (10, 18)%Z /\
  parse_range (temp_range fern_wider) = Ok (0, 18)%Z /\
  moisture_range fern_wider = moisture_range fern /\
  light_range fern_wider = light_range fern /\
  plant_distance fern observed = ([], Ok 6) /\
  plant_distance fern_wider observed = ([], Ok 11).
Proof.
  repeat split.
  - rewrite (plant_distance_parsed fern observed (40, 60)%Z (400, 600)%Z (10, 18)%Z)
      by reflexivity.
    unfold lift, range_penalty, observed; cbn [median_moisture median_light_level median_temperature].
    rewrite add_penalty_inside by lra. unfold rbind at 1.
    rewrite add_penalty_inside by lra. unfold rbind.
    rewrite add_penalty_outside by lra.
    do 2 f_equal. unfold Rabs. destruct Rcase_abs; lra.
  - rewrite (plant_distance_parsed fern_wider observed (40, 60)%Z (400, 600)%Z (0, 18)%Z)
      by reflexivity.
    unfold lift, range_penalty, observed; cbn [median_moisture median_light_level median_temperature].
    rewrite add_penalty_inside by lra. unfold rbind at 1.
    rewrite add_penalty_inside by lra. unfold rbind.
    rewrite add_penalty_outside by lra.
    do 2 f_equal. unfold Rabs. destruct Rcase_abs; lra.
Qed.

(** C2, amended.  Take a record whose bounds satisfy [lo <= hi] and widen
    each range so that it either comes to contain the median or has only
    the bound on the median's side moved (the upper bound when the median
    lies above, the lower bound when it lies below).  Then the penalty of
    the widened record is at most the penalty of the original one. *)
Theorem widening_towards_median_never_increases :
  forall (narrow wide : plant_ranges) (med : medians)
         (mlo mhi llo lhi tlo thi mlo' mhi' llo' lhi' tlo' thi' : Z),
    parse_range (moisture_range narrow) = Ok (mlo, mhi) ->
    parse_range (light_range narrow) = Ok (llo, lhi) ->
    parse_range (temp_range narrow) = Ok (tlo, thi) ->
    parse_range (moisture_range wide) = Ok (mlo', mhi') ->
    parse_range (light_range wide) = Ok (llo', lhi') ->
    parse_range (temp_range wide) = Ok (tlo', thi') ->
    widened_towards mlo mhi mlo' mhi' (median_moisture med) ->
    widened_towards llo lhi llo' lhi' (median_light_level med) ->
    widened_towards tlo thi tlo' thi' (median_temperature med) ->
    exists p p',
      plant_distance narrow med = ([], Ok p) /\
      plant_distance wide med = ([], Ok p') /\
      p' <= p.
Proof.
  intros narrow wide med mlo mhi llo lhi tlo thi mlo' mhi' llo' lhi' tlo' thi'
         Hm Hl Ht Hm' Hl' Ht' Wm Wl Wt.
  destruct (plant_distance_contributions narrow med _ _ _ _ _ _ Hm Hl Ht)
    as (ct & cl & cm & -> & Ct & Cl & Cm).
  destruct (plant_distance_contributions wide med _ _ _ _ _ _ Hm' Hl' Ht')
    as (ct' & cl' & cm' & -> & Ct' & Cl' & Cm').
  exists (ct + cl + cm), (ct' + cl' + cm'). repeat split.
  pose proof (widened_contribution _ _ _ _ _ _ _ Wm Cm Cm').
  pose proof (widened_contribution _ _ _ _ _ _ _ Wl Cl Cl').
  pose proof (widened_contribution _ _ _ _ _ _ _ Wt Ct Ct').
  lra.
Qed.

Lemma widening_towards_median_never_increases_witness :
  exists p p',
    plant_distance fern observed = ([], Ok p) /\
    plant_distance fern_higher observed = ([], Ok p') /\
    p' <= p.
Proof.
  apply (widening_towards_median_never_increases fern fern_higher observed
           40 60 400 600 10 18 40 60 400 600 10 19);
    try reflexivity; unfold widened_towards, observed; simpl.
  - repeat split; try lia. left. lra.
  - repeat split; try lia. left. lra.
  - repeat split; try lia. right. left. split; [lra | reflexivity].
Defined.

(** ** [min], [index] and the nearest centroid *)

Lemma fold_min_spec (t : list R) (x : R) :
  let m := fold_left (fun best item => if Rltb item best then item else best) t x in
  (m = x \/ In m t) /\ m <= x /\ Forall (fun y => m <= y) t.
Proof.
  revert x. induction t as [| y t IH]; intros x; simpl.
  - repeat split; auto; lra.
  - destruct (Rltb y x) eqn:E.
    + apply Rltb_true_iff in E.
      destruct (IH y) as ([Hm | Hm] & Hle & Hall);
        (split; [| split]); auto; try lra; constructor; auto.
    + apply Rltb_false_iff in E.
      destruct (IH x) as ([Hm | Hm] & Hle & Hall);
        (split; [| split]); auto; try lra; constructor; auto; lra.
Qed.

Lemma min_spec (l : list R) (m : R) :
  Py.min l = Ok m -> In m l /\ Forall (fun y => m <= y) l.
Proof.
  destruct l as [| x t]; simpl; [discriminate |].
  intros [= <-]. destruct (fold_min_spec t x) as ([H | H] & Hle & Hall).
  - split; [left; now symmetry | constructor; auto].
  - split; [now right | constructor; auto].
Qed.

Lemma min_total (l : list R) : l <> [] -> exists m, Py.min l = Ok m.
Proof. destruct l; [congruence | eexists; reflexivity]. Qed.

Lemma index_spec (x : R) (l : list R) (j : nat) :
  index x l = Ok j ->
  nth_error l j = Some x /\ forall i y, (i < j)%nat -> nth_error l i = Some y -> y <> x.
Proof.
  revert j. induction l as [| y t IH]; intros j; simpl; [discriminate |].
  destruct (Reqb y x) eqn:E.
  - intros [= <-]. apply Reqb_true_iff in E. subst. split; [reflexivity | intros; lia].
  - destruct (index x t) as [n | e]; simpl; [| discriminate].
    intros [= <-]. destruct (IH n eq_refl) as [H1 H2]. split; [exact H1 |].
    intros [| i] z Hi; simpl.
    + intros [= <-] ->. rewrite Reqb_refl in E. discriminate.
    + apply H2. lia.
Qed.

Lemma index_total (x : R) (l : list R) : In x l -> exists j, index x l = Ok j.
Proof.
  induction l as [| y t IH]; simpl; [tauto |].
  intros H. destruct (Reqb y x) eqn:E; [now exists O |].
  destruct H as [-> | H]; [rewrite Reqb_refl in E; discriminate |].
  destruct (IH H) as [j ->]. now exists (S j).
Qed.

(** What lines 102-103 compute: a position in the centroid list whose
    distance is smallest, and the first such position. *)
Lemma nearest_spec (p : Point) (cs : list Point) (j : nat) :
  nearest p cs = Ok j ->
  exists c, nth_error cs j = Some c /\
    (forall i c', nth_error cs i = Some c' ->
                  euclidean_distance p c <= euclidean_distance p c') /\
    (forall i c', (i < j)%nat -> nth_error cs i = Some c' ->
                  euclidean_distance p c < euclidean_distance p c').
Proof.
  unfold nearest. destruct (Py.min _) as [m | e] eqn:Em; simpl; [| discriminate].
  intros Hj. apply min_spec in Em. destruct Em as [_ Hall].
  apply index_spec in Hj. destruct Hj as [Hnth Hfirst].
  rewrite nth_error_map in Hnth.
  destruct (nth_error cs j) as [c |] eqn:Ec; [| discriminate].
  injection Hnth as <-. exists c. split; [reflexivity |].
  assert (Hle : forall i c', nth_error cs i = Some c' ->
                             euclidean_distance p c <= euclidean_distance p c').
  { intros i c' Hi. rewrite Forall_forall in Hall. apply Hall.
    apply in_map. eapply nth_error_In; eauto. }
  split; [exact Hle |].
  intros i c' Hlt Hi.
  assert (euclidean_distance p c' <> euclidean_distance p c).
  { apply (Hfirst i); [exact Hlt |]. rewrite nth_error_map, Hi. reflexivity. }
  pose proof (Hle i c' Hi). lra.
Qed.

Lemma nearest_total (p : Point) (cs : list Point) :
  cs <> [] -> exists j, nearest p cs = Ok j /\ (j < length cs)%nat.
Proof.
  intros H. unfold nearest.
  destruct (min_total (map (euclidean_distance p) cs)) as [m Em].
  { destruct cs; [congruence | discriminate]. }
  rewrite Em. simpl. destruct (min_spec _ _ Em) as [Hin _].
  destruct (index_total _ _ Hin) as [j Hj]. exists j. split; [exact Hj |].
  apply index_spec in Hj. destruct Hj as [Hnth _].
  rewrite <- (length_map (euclidean_distance p)). apply nth_error_Some. congruence.
Qed.

(** The position through its two properties. *)
Lemma nearest_intro (p : Point) (cs : list Point) (j : nat) (c : Point) :
  nth_error cs j = Some c ->
  (forall i c', nth_error cs i = Some c' ->
                euclidean_distance p c <= euclidean_distance p c') ->
  (forall i c', (i < j)%nat -> nth_error cs i = Some c' ->
                euclidean_distance p c < euclidean_distance p c') ->
  nearest p cs = Ok j.
Proof.
  intros Hc Hle Hlt.
  destruct (nearest_total p cs) as (j' & Hj' & _).
  { destruct cs; [destruct j; discriminate | discriminate]. }
  rewrite Hj'. f_equal.
  destruct (nearest_spec _ _ _ Hj') as (c' & Hc' & Hle' & Hlt').
  destruct (Nat.lt_total j j') as [H | [H | H]]; [| now symmetry |].
  - pose proof (Hlt' _ _ H Hc). pose proof (Hle _ _ Hc'). lra.
  - pose proof (Hlt _ _ H Hc'). pose proof (Hle' _ _ Hc). lra.
Qed.

(** ** The assignment step *)

Lemma length_set_nth {A : Type} (l : list A) (n : nat) (a : A) :
  length (set_nth l n a) = length l.
Proof.
  revert n. induction l as [| x t IH]; intros [| n]; simpl; auto.
Qed.

Lemma nth_set_nth {A : Type} (l : list A) (n m : nat) (a d : A) :
  (n < length l)%nat ->
  nth m (set_nth l n a) d = if (m =? n)%nat then a else nth m l d.
Proof.
  revert n m. induction l as [| x t IH]; intros [| n] [| m]; simpl; intros H;
    try lia; auto.
  apply IH. lia.
Qed.

Lemma getitem_Ok {A : Type} (l : list A) (i : nat) (a : A) :
  getitem l i = Ok a <-> nth_error l i = Some a.
Proof.
  unfold getitem. destruct (nth_error l i); split; congruence.
Qed.

Lemma getitem_total {A : Type} (l : list A) (i : nat) :
  (i < length l)%nat -> exists a, getitem l i = Ok a.
Proof.
  intros H. unfold getitem. destruct (nth_error l i) as [a |] eqn:E; [now exists a |].
  apply nth_error_None in E. lia.
Qed.

Lemma append_to_spec (cl cl' : list (list nat)) (j i : nat) :
  append_to cl j i = Ok cl' ->
  length cl' = length cl /\ (j < length cl)%nat /\
  forall j', nth j' cl' [] = if (j' =? j)%nat then (nth j cl [] ++ [i])%list else nth j' cl [].
Proof.
  unfold append_to. destruct (getitem cl j) as [c | e] eqn:E; simpl; [| discriminate].
  intros [= <-]. apply getitem_Ok in E.
  assert (Hj : (j < length cl)%nat) by (apply nth_error_Some; congruence).
  split; [apply length_set_nth | split; [exact Hj |]].
  intros j'. rewrite (nth_set_nth _ _ _ _ _ Hj).
  now rewrite (nth_error_nth _ _ _ E).
Qed.

Lemma assign_rows_spec (rows : DataFrame) (cs : list Point) :
  forall (i : nat) (cl cl' : list (list nat)),
    assign_rows rows i cs cl = Ok cl' ->
    length cl' = length cl /\
    forall j x,
      In x (nth j cl' []) <->
      In x (nth j cl []) \/
      exists pos p, x = (i + pos)%nat /\ nth_error rows pos = Some p /\ nearest p cs = Ok j.
Proof.
  induction rows as [| p rest IH]; intros i cl cl'; simpl.
  - intros [= <-]. split; [reflexivity |]. intros j x. split; [tauto |].
    intros [H | (pos & q & _ & H & _)]; [exact H | destruct pos; discriminate].
  - destruct (nearest p cs) as [ci | e] eqn:En; simpl; [| discriminate].
    destruct (append_to cl ci i) as [cl1 | e] eqn:Ea; simpl; [| discriminate].
    intros H. apply IH in H. destruct H as [Hlen Hin].
    apply append_to_spec in Ea. destruct Ea as (Hlen1 & Hci & Hnth).
    split; [congruence |]. intros j x. rewrite Hin, Hnth.
    destruct (Nat.eqb_spec j ci) as [-> | Hne].
    + rewrite in_app_iff. simpl. split.
      * intros [[H | [<- | []]] | (pos & q & -> & Hq & Hn)].
        -- now left.
        -- right. exists O, p. rewrite Nat.add_0_r. auto.
        -- right. exists (S pos), q. split; [lia | auto].
      * intros [H | (pos & q & -> & Hq & Hn)]; [tauto |].
        destruct pos as [| pos]; simpl in Hq.
        -- left. right. left. lia.
        -- right. exists pos, q. split; [lia | auto].
    + split.
      * intros [H | (pos & q & -> & Hq & Hn)]; [now left |].
        right. exists (S pos), q. split; [lia | auto].
      * intros [H | (pos & q & -> & Hq & Hn)]; [now left |].
        destruct pos as [| pos]; simpl in Hq.
        -- injection Hq as <-. congruence.
        -- right. exists pos, q. split; [lia | auto].
Qed.

Lemma assign_rows_total (rows : DataFrame) (cs : list Point) :
  cs <> [] ->
  forall (i : nat) (cl : list (list nat)),
    length cl = length cs -> exists cl', assign_rows rows i cs cl = Ok cl'.
Proof.
  intros Hcs. induction rows as [| p rest IH]; intros i cl Hlen; simpl.
  - now exists cl.
  - destruct (nearest_total p cs Hcs) as (j & -> & Hj). simpl.
    unfold append_to. destruct (getitem_total cl j) as [c ->]; [lia |]. simpl.
    apply IH. now rewrite length_set_nth.
Qed.

Lemma nth_repeat_nil (n j : nat) : nth j (repeat (@nil nat) n) [] = [].
Proof.
  revert j. induction n as [| n IH]; intros [| j]; simpl; auto.
Qed.

(** The clusters of an assignment step: one per centroid position up to
    [k], cluster [j] holding exactly the rows whose nearest centroid is
    at position [j]. *)
Lemma assignment_step_spec (df : DataFrame) (k : Z) (cs : list Point) (cl : list (list nat)) :
  assignment_step df k cs = Ok cl ->
  length cl = Z.to_nat k /\
  forall j x,
    In x (nth j cl []) <-> exists p, nth_error df x = Some p /\ nearest p cs = Ok j.
Proof.
  unfold assignment_step. intros H. apply assign_rows_spec in H.
  destruct H as [Hlen Hin]. rewrite repeat_length in Hlen. split; [exact Hlen |].
  intros j x. rewrite Hin, nth_repeat_nil. simpl. split.
  - intros [[] | (pos & p & -> & Hp & Hn)]. now exists p.
  - intros (p & Hp & Hn). right. now exists x, p.
Qed.

Lemma assignment_step_total (df : DataFrame) (k : Z) (cs : list Point) :
  cs <> [] -> length cs = Z.to_nat k -> exists cl, assignment_step df k cs = Ok cl.
Proof.
  intros Hcs Hlen. apply assign_rows_total; [exact Hcs |].
  now rewrite repeat_length.
Qed.

(** ** The update step and the convergence test *)

Lemma mapM_length {A B : Type} (f : A -> result B) (l : list A) (bs : list B) :
  mapM f l = Ok bs -> length bs = length l.
Proof.
  revert bs. induction l as [| a t IH]; intros bs; simpl.
  - now intros [= <-].
  - destruct (f a) as [b | e]; simpl; [| discriminate].
    destruct (mapM f t) as [bs' | e]; simpl; [| discriminate].
    intros [= <-]. simpl. now rewrite (IH bs').
Qed.

Lemma mapM_total {A B : Type} (f : A -> result B) (l : list A) :
  Forall (fun a => exists b, f a = Ok b) l -> exists bs, mapM f l = Ok bs.
Proof.
  induction 1 as [| a t [b Hb] _ [bs Hbs]]; simpl.
  - now exists [].
  - rewrite Hb, Hbs. simpl. now exists (b :: bs).
Qed.

Lemma mapM_Forall {A B : Type} (f : A -> result B) (P : B -> Prop) (l : list A) (bs : list B) :
  (forall a b, In a l -> f a = Ok b -> P b) -> mapM f l = Ok bs -> Forall P bs.
Proof.
  revert bs. induction l as [| a t IH]; intros bs HP; simpl.
  - intros [= <-]. constructor.
  - destruct (f a) as [b | e] eqn:Eb; simpl; [| discriminate].
    destruct (mapM f t) as [bs' | e]; simpl; [| discriminate].
    intros [= <-]. constructor.
    + apply (HP a); simpl; auto.
    + apply IH; auto. intros a' b' Hin. apply HP. now right.
Qed.

Lemma iloc_total (df : DataFrame) (rows : list nat) :
  Forall (fun i => (i < length df)%nat) rows -> exists r, iloc df rows = Ok r.
Proof.
  intros H. apply mapM_total. eapply Forall_impl; [| exact H].
  intros i Hi. now apply getitem_total.
Qed.

(** What the loop of lines 108-112 leaves in [new_centroids]: one centroid
    per cluster, after those already there; the old centroid of the same
    position for an empty cluster, the mean of its rows otherwise. *)
Lemma update_loop_spec (df : DataFrame) (cents : list Point) :
  forall (cls : list (list nat)) (acc new : list Point),
    update_loop df cls cents acc = Ok new ->
    length new = (length acc + length cls)%nat /\
    (forall j, (j < length acc)%nat -> nth_error new j = nth_error acc j) /\
    (forall j, nth_error cls j = Some [] ->
               exists c, nth_error cents (length acc + j) = Some c /\
                         nth_error new (length acc + j) = Some c) /\
    (forall j cluster, nth_error cls j = Some cluster -> cluster <> [] ->
               exists rows, iloc df cluster = Ok rows /\
                            nth_error new (length acc + j) = Some (mean rows)).
Proof.
  induction cls as [| cluster rest IH]; intros acc new; simpl.
  - intros [= <-]. rewrite Nat.add_0_r. split; [reflexivity |].
    split; [reflexivity |]. split; intros [| j]; discriminate.
  - destruct (match cluster with
              | [] => getitem cents (length acc)
              | _ :: _ => rows <~ iloc df cluster ;; Ok (mean rows)
              end) as [c | e] eqn:Ec; simpl; [| discriminate].
    intros H. apply IH in H. destruct H as (Hlen & Hpre & Hempty & Hmean).
    rewrite length_app in Hlen, Hpre, Hempty, Hmean. simpl in *.
    assert (Hc : nth_error new (length acc) = Some c).
    { rewrite Hpre by lia. rewrite nth_error_app2 by lia.
      now rewrite Nat.sub_diag. }
    split; [lia |]. split; [| split].
    + intros j Hj. rewrite Hpre by lia. apply nth_error_app1. exact Hj.
    + intros [| j]; simpl.
      * intros [= ->]. apply getitem_Ok in Ec. exists c.
        rewrite Nat.add_0_r. auto.
      * intros Hj. destruct (Hempty j Hj) as (c' & H1 & H2). exists c'.
        replace (length acc + S j)%nat with (length acc + 1 + j)%nat by lia. auto.
    + intros [| j] cluster'; simpl.
      * intros [= <-] Hne. destruct cluster as [| i cluster]; [congruence |].
        destruct (iloc df (i :: cluster)) as [rows | e]; simpl in Ec; [| discriminate].
        injection Ec as <-. exists rows. rewrite Nat.add_0_r. auto.
      * intros Hj Hne. destruct (Hmean j cluster' Hj Hne) as (rows & H1 & H2).
        exists rows. replace (length acc + S j)%nat with (length acc + 1 + j)%nat by lia. auto.
Qed.

Lemma update_loop_total (df : DataFrame) (cents : list Point) :
  forall (cls : list (list nat)) (acc : list Point),
    Forall (Forall (fun i => (i < length df)%nat)) cls ->
    (length acc + length cls <= length cents)%nat ->
    exists new, update_loop df cls cents acc = Ok new.
Proof.
  induction cls as [| cluster rest IH]; intros acc Hvalid Hlen; simpl.
  - now exists acc.
  - inversion Hvalid as [| ? ? Hc Hrest]; subst. simpl in Hlen.
    assert (exists c, match cluster with
                      | [] => getitem cents (length acc)
                      | _ :: _ => rows <~ iloc df cluster ;; Ok (mean rows)
                      end = Ok c) as [c ->].
    { destruct cluster as [| i cluster].
      - apply getitem_total. lia.
      - destruct (iloc_total df (i :: cluster) Hc) as [rows ->]. simpl. eauto. }
    simpl. apply IH; [exact Hrest |]. rewrite length_app. simpl. lia.
Qed.

Lemma all_equal_true (a b : Point) : all_equal a b = true <-> a = b.
Proof.
  unfold all_equal. rewrite !andb_true_iff, !Reqb_true_iff.
  destruct a, b; simpl. split.
  - intros [[-> ->] ->]. reflexivity.
  - intros [= -> -> ->]. auto.
Qed.

Lemma all_unchanged_true (idxs : list nat) (new cents : list Point) :
  all_unchanged idxs new cents = Ok true ->
  forall i, In i idxs -> exists c, nth_error new i = Some c /\ nth_error cents i = Some c.
Proof.
  induction idxs as [| i rest IH]; simpl; [tauto |].
  destruct (getitem new i) as [a | e] eqn:Ea; simpl; [| discriminate].
  destruct (getitem cents i) as [b | e] eqn:Eb; simpl; [| discriminate].
  destruct (all_equal a b) eqn:E; [| discriminate].
  apply all_equal_true in E. subst b. apply getitem_Ok in Ea, Eb.
  intros H j [<- | Hj]; [now exists a | now apply IH].
Qed.

Lemma all_unchanged_false (idxs : list nat) (new cents : list Point) :
  all_unchanged idxs new cents = Ok false ->
  exists i a b, In i idxs /\ nth_error new i = Some a /\ nth_error cents i = Some b /\ a <> b.
Proof.
  induction idxs as [| i rest IH]; simpl; [discriminate |].
  destruct (getitem new i) as [a | e] eqn:Ea; simpl; [| discriminate].
  destruct (getitem cents i) as [b | e] eqn:Eb; simpl; [| discriminate].
  destruct (all_equal a b) eqn:E.
  - intros H. destruct (IH H) as (j & a' & b' & Hj & H'). exists j, a', b'. auto.
  - intros _. apply getitem_Ok in Ea, Eb. exists i, a, b. repeat split; auto.
    intros ->. assert (all_equal b b = true) by now apply all_equal_true. congruence.
Qed.

Lemma all_unchanged_total (idxs : list nat) (new cents : list Point) :
  Forall (fun i => (i < length new)%nat /\ (i < length cents)%nat) idxs ->
  exists b, all_unchanged idxs new cents = Ok b.
Proof.
  induction 1 as [| i rest [H1 H2] _ [b Hb]]; simpl; [now exists true |].
  destruct (getitem_total new i H1) as [x ->].
  destruct (getitem_total cents i H2) as [y ->]. simpl.
  destruct (all_equal x y); eauto.
Qed.

Lemma unchanged_total (k : Z) (new cents : list Point) :
  length new = Z.to_nat k -> length cents = Z.to_nat k ->
  exists b, unchanged k new cents = Ok b.
Proof.
  intros H1 H2. apply all_unchanged_total. apply Forall_forall.
  intros i Hi. apply in_seq in Hi. lia.
Qed.

(** The test of line 114 holds exactly when the two lists agree. *)
Lemma unchanged_true (k : Z) (new cents : list Point) :
  length new = Z.to_nat k -> length cents = Z.to_nat k ->
  unchanged k new cents = Ok true -> new = cents.
Proof.
  intros H1 H2 H. apply nth_error_ext. intros i.
  destruct (Nat.lt_ge_cases i (Z.to_nat k)) as [Hi | Hi].
  - destruct (all_unchanged_true _ _ _ H i) as (c & Hn & Hc).
    + apply in_seq. lia.
    + congruence.
  - rewrite (proj2 (nth_error_None new i)) by lia.
    now rewrite (proj2 (nth_error_None cents i)) by lia.
Qed.

(** ** The loop of [kmeans_clustering] *)

Lemma update_step_length (df : DataFrame) (cl : list (list nat)) (cs new : list Point) :
  update_step df cl cs = Ok new -> length new = length cl.
Proof.
  intros H. apply update_loop_spec in H. simpl in H. tauto.
Qed.

Lemma assignment_step_valid (df : DataFrame) (k : Z) (cs : list Point) (cl : list (list nat)) :
  assignment_step df k cs = Ok cl ->
  Forall (Forall (fun i => (i < length df)%nat)) cl.
Proof.
  intros H. apply assignment_step_spec in H. destruct H as [_ Hin].
  apply Forall_forall. intros c Hc. apply Forall_forall. intros x Hx.
  destruct (In_nth _ _ [] Hc) as (j & _ & Hj). subst c.
  apply Hin in Hx. destruct Hx as (p & Hp & _).
  apply nth_error_Some. congruence.
Qed.

Lemma update_step_total (df : DataFrame) (k : Z) (cs : list Point) (cl : list (list nat)) :
  length cs = Z.to_nat k -> assignment_step df k cs = Ok cl ->
  exists new, update_step df cl cs = Ok new /\ length new = Z.to_nat k.
Proof.
  intros Hlen H.
  destruct (update_loop_total df cs cl []) as [new Hnew].
  - eapply assignment_step_valid; eauto.
  - apply assignment_step_spec in H. simpl. lia.
  - exists new. split; [exact Hnew |].
    apply update_step_length in Hnew. apply assignment_step_spec in H. lia.
Qed.

(** How a run of the loop relates what it returns: after [break] the
    clusters are the assignment against the returned centroids, which the
    update left unchanged; after the last iteration the clusters are the
    assignment against the centroids before the update that produced the
    returned ones. *)
Lemma iterate_exit (df : DataFrame) (k : Z) :
  forall (n : nat) (cl0 : option (list (list nat))) (cs0 : list Point)
         (e : exit) (cl : list (list nat)) (cs : list Point),
    iterate df k n cl0 cs0 = Ok (e, (cl, cs)) ->
    match e with
    | Converged =>
        assignment_step df k cs = Ok cl /\
        exists new, update_step df cl cs = Ok new /\ unchanged k new cs = Ok true
    | IterationCap =>
        (n = O /\ cl0 = Some cl /\ cs = cs0) \/
        exists prev, assignment_step df k prev = Ok cl /\
                     update_step df cl prev = Ok cs /\
                     unchanged k cs prev = Ok false
    end.
Proof.
  induction n as [| n IH]; intros cl0 cs0 e cl cs; simpl.
  - destruct cl0 as [c |]; [| discriminate]. intros [= <- <- <-]. now left.
  - destruct (assignment_step df k cs0) as [cl1 | x] eqn:Ea; simpl; [| discriminate].
    destruct (update_step df cl1 cs0) as [new | x] eqn:Eu; simpl; [| discriminate].
    destruct (unchanged k new cs0) as [[|] | x] eqn:Ec; simpl; [| | discriminate].
    + intros [= <- <- <-]. split; [exact Ea | now exists new].
    + intros H. specialize (IH _ _ _ _ _ H). destruct e; [exact IH |].
      right. destruct IH as [(_ & [= <-] & ->) | IH]; [| exact IH].
      now exists cs0.
Qed.

Lemma iterate_lengths (df : DataFrame) (k : Z) :
  forall (n : nat) (cl0 : option (list (list nat))) (cs0 : list Point)
         (e : exit) (cl : list (list nat)) (cs : list Point),
    length cs0 = Z.to_nat k ->
    (forall c, cl0 = Some c -> length c = Z.to_nat k) ->
    iterate df k n cl0 cs0 = Ok (e, (cl, cs)) ->
    length cl = Z.to_nat k /\ length cs = Z.to_nat k.
Proof.
  induction n as [| n IH]; intros cl0 cs0 e cl cs Hcs Hcl; simpl.
  - destruct cl0 as [c |]; [| discriminate]. intros [= <- <- <-]. auto.
  - destruct (assignment_step df k cs0) as [cl1 | x] eqn:Ea; simpl; [| discriminate].
    destruct (update_step df cl1 cs0) as [new | x] eqn:Eu; simpl; [| discriminate].
    pose proof (proj1 (assignment_step_spec _ _ _ _ Ea)) as Hcl1.
    pose proof (update_step_length _ _ _ _ Eu) as Hnew.
    destruct (unchanged k new cs0) as [[|] | x]; simpl; [| | discriminate].
    + intros [= <- <- <-]. auto.
    + apply IH; [congruence |]. now intros c [= <-].
Qed.

Lemma iterate_total (df : DataFrame) (k : Z) :
  forall (n : nat) (cl0 : option (list (list nat))) (cs0 : list Point),
    cs0 <> [] -> length cs0 = Z.to_nat k ->
    n <> O \/ cl0 <> None ->
    exists r, iterate df k n cl0 cs0 = Ok r.
Proof.
  induction n as [| n IH]; intros cl0 cs0 Hne Hlen Hstart; simpl.
  - destruct cl0 as [c |]; [eauto | destruct Hstart; congruence].
  - destruct (assignment_step_total df k cs0 Hne Hlen) as [cl1 Ea]. rewrite Ea. simpl.
    destruct (update_step_total df k cs0 cl1 Hlen Ea) as (new & Eu & Hnew).
    rewrite Eu. simpl.
    destruct (unchanged_total k new cs0 Hnew Hlen) as [[|] ->]; simpl; [eauto |].
    apply IH.
    + destruct new; [| discriminate]. destruct cs0; [congruence |].
      simpl in *. congruence.
    + exact Hnew.
    + right. discriminate.
Qed.

Lemma initial_centroids_length (df : DataFrame) (k : Z) (rnd : nat -> nat) (cs : list Point) :
  initial_centroids df k rnd = Ok cs -> length cs = Z.to_nat k.
Proof.
  intros H. apply mapM_length in H. now rewrite length_seq in H.
Qed.

Lemma initial_centroids_total (df : DataFrame) (k : Z) (rnd : nat -> nat) :
  df <> [] -> (forall j, (rnd j < length df)%nat) ->
  exists cs, initial_centroids df k rnd = Ok cs.
Proof.
  intros Hdf Hrnd. apply mapM_total. apply Forall_forall. intros j _.
  unfold randint.
  assert ((Z.of_nat (length df) - 1 <? 0)%Z = false) as ->.
  { apply Z.ltb_ge. destruct df; [congruence | simpl length; lia]. }
  simpl. apply getitem_total, Hrnd.
Qed.

(** The initial centroids are rows of the data, so duplicates may occur. *)
Lemma initial_centroids_rows (df : DataFrame) (k : Z) (rnd : nat -> nat) (cs : list Point) :
  initial_centroids df k rnd = Ok cs -> Forall (fun c => In c df) cs.
Proof.
  apply mapM_Forall. intros j c _. unfold randint.
  destruct (Z.of_nat (length df) - 1 <? 0)%Z; simpl; [discriminate |].
  intros H. apply getitem_Ok in H. eapply nth_error_In; eauto.
Qed.

Lemma kmeans_run_lengths (df : DataFrame) (k mi : Z) (rnd : nat -> nat)
    (e : exit) (cl : list (list nat)) (cs : list Point) :
  kmeans_run df k mi rnd = Ok (e, (cl, cs)) ->
  length cl = Z.to_nat k /\ length cs = Z.to_nat k.
Proof.
  unfold kmeans_run.
  destruct (initial_centroids df k rnd) as [cs0 | x] eqn:E0; simpl; [| discriminate].
  apply iterate_lengths; [eapply initial_centroids_length; eauto | discriminate].
Qed.

(** With at least one row, one cluster and one iteration, and draws that
    lie in the range asked for, the run raises nothing. *)
Lemma kmeans_run_total (df : DataFrame) (k mi : Z) (rnd : nat -> nat) :
  df <> [] -> (1 <= k)%Z -> (1 <= mi)%Z -> (forall j, (rnd j < length df)%nat) ->
  exists e cl cs, kmeans_run df k mi rnd = Ok (e, (cl, cs)).
Proof.
  intros Hdf Hk Hmi Hrnd. unfold kmeans_run.
  destruct (initial_centroids_total df k rnd Hdf Hrnd) as [cs0 E0]. rewrite E0. simpl.
  pose proof (initial_centroids_length _ _ _ _ E0) as Hlen.
  destruct (iterate_total df k (Z.to_nat mi) None cs0) as [[e [cl cs]] Hr].
  - destruct cs0; [simpl in Hlen; lia | discriminate].
  - exact Hlen.
  - left. lia.
  - now exists e, cl, cs.
Qed.

Lemma kmeans_run_exit (df : DataFrame) (k mi : Z) (rnd : nat -> nat)
    (e : exit) (cl : list (list nat)) (cs : list Point) :
  kmeans_run df k mi rnd = Ok (e, (cl, cs)) ->
  match e with
  | Converged =>
      assignment_step df k cs = Ok cl /\
      exists new, update_step df cl cs = Ok new /\ unchanged k new cs = Ok true
  | IterationCap =>
      exists prev, assignment_step df k prev = Ok cl /\
                   update_step df cl prev = Ok cs /\
                   unchanged k cs prev = Ok false
  end.
Proof.
  unfold kmeans_run.
  destruct (initial_centroids df k rnd) as [cs0 | x]; simpl; [| discriminate].
  intros H. apply iterate_exit in H. destruct e; [exact H |].
  destruct H as [(_ & [=] & _) | H]; exact H.
Qed.

Lemma assign_rows_nearest (rows : DataFrame) (cs : list Point) :
  forall (i : nat) (cl cl' : list (list nat)),
    assign_rows rows i cs cl = Ok cl' ->
    forall pos p, nth_error rows pos = Some p -> exists j, nearest p cs = Ok j.
Proof.
  induction rows as [| q rest IH]; intros i cl cl'; simpl.
  - intros _ [| pos] p; discriminate.
  - destruct (nearest q cs) as [ci | e] eqn:En; simpl; [| discriminate].
    destruct (append_to cl ci i) as [cl1 | e]; simpl; [| discriminate].
    intros H [| pos] p; simpl.
    + intros [= <-]. now exists ci.
    + eapply IH; eauto.
Qed.

(** ** Concrete points

    Rows that differ in temperature only are at the distance of their
    temperatures; this is how the distances of the scenarios are
    evaluated. *)

Lemma sum_three (x y z : R) : sum [x; y; z] = x + y + z.
Proof. unfold sum. simpl. ring. Qed.

Lemma euclidean_distance_temperature (p q : Point) :
  light_level p = light_level q -> moisture p = moisture q ->
  euclidean_distance p q = Rabs (temperature p - temperature q).
Proof.
  intros Hl Hm. unfold euclidean_distance. rewrite sum_three, Hl, Hm.
  rewrite <- sqrt_Rsqr_abs. f_equal. unfold Rsqr. ring.
Qed.

Lemma euclidean_distance_refl (p : Point) : euclidean_distance p p = 0.
Proof.
  rewrite euclidean_distance_temperature by reflexivity.
  rewrite Rminus_diag. apply Rabs_R0.
Qed.

Lemma nearest_two (p c0 c1 : Point) :
  nearest p [c0; c1] =
  Ok (if Rleb (euclidean_distance p c0) (euclidean_distance p c1) then O else 1%nat).
Proof.
  unfold nearest. simpl.
  destruct (Rleb (euclidean_distance p c0) (euclidean_distance p c1)) eqn:E.
  - apply Rleb_true_iff in E.
    rewrite (proj2 (Rltb_false_iff _ _) E). now rewrite Reqb_refl.
  - apply Rleb_false_iff in E.
    rewrite (proj2 (Rltb_true_iff _ _) E).
    assert (Reqb (euclidean_distance p c0) (euclidean_distance p c1) = false) as ->.
    { destruct (Reqb _ _) eqn:E'; [| reflexivity]. apply Reqb_true_iff in E'. lra. }
    now rewrite Reqb_refl.
Qed.

Lemma distance_at_temperature (x y : R) :
  euclidean_distance (at_temperature x) (at_temperature y) = Rabs (x - y).
Proof. now apply euclidean_distance_temperature. Qed.

(** Evaluates the distances between rows [at_temperature _] and settles
    the comparisons on them. *)
Ltac distances :=
  rewrite ?distance_at_temperature;
  repeat match goal with
  | |- context [Rabs ?t] =>
      first [ rewrite (Rabs_pos_eq t) by lra | rewrite (Rabs_left1 t) by lra ]
  end;
  order_reals.

Lemma mean_two_rows : mean two_rows = at_temperature 5.
Proof.
  unfold mean, two_rows, at_temperature, sum. simpl. f_equal; lra.
Qed.

Lemma at_temperature_inj (x y : R) : at_temperature x = at_temperature y -> x = y.
Proof. now intros [= ->]. Qed.

Lemma all_equal_at_temperature (x y : R) :
  x <> y -> all_equal (at_temperature x) (at_temperature y) = false.
Proof.
  intros H. destruct (all_equal _ _) eqn:E; [| reflexivity].
  apply all_equal_true, at_temperature_inj in E. contradiction.
Qed.

Lemma mean_single (x : R) : mean [at_temperature x] = at_temperature x.
Proof.
  unfold mean, at_temperature, sum. simpl. f_equal; lra.
Qed.

(** One iteration of the loop, by the outcome of its test. *)
Lemma iterate_break (df : DataFrame) (k : Z) (n : nat) (cl0 : option (list (list nat)))
    (cs new : list Point) (cl : list (list nat)) :
  assignment_step df k cs = Ok cl ->
  update_step df cl cs = Ok new ->
  unchanged k new cs = Ok true ->
  iterate df k (S n) cl0 cs = Ok (Converged, (cl, cs)).
Proof.
  intros Ha Hu Hc. cbn [iterate].
  rewrite Ha. cbn [rbind]. rewrite Hu. cbn [rbind]. now rewrite Hc.
Qed.

Lemma iterate_continue (df : DataFrame) (k : Z) (n : nat) (cl0 : option (list (list nat)))
    (cs new : list Point) (cl : list (list nat)) :
  assignment_step df k cs = Ok cl ->
  update_step df cl cs = Ok new ->
  unchanged k new cs = Ok false ->
  iterate df k (S n) cl0 cs = iterate df k n (Some cl) new.
Proof.
  intros Ha Hu Hc. cbn [iterate].
  rewrite Ha. cbn [rbind]. rewrite Hu. cbn [rbind]. now rewrite Hc.
Qed.

(** Evaluate an assignment step, an update step and the convergence test
    on rows [at_temperature _] and two centroids. *)
Ltac assign_two :=
  unfold assignment_step, two_rows;
  change (Z.to_nat 2) with 2%nat; cbn [assign_rows repeat];
  rewrite !nearest_two; distances; reflexivity.

Ltac update_two :=
  unfold update_step;
  cbn [update_loop iloc mapM getitem nth_error rbind length app two_rows];
  fold two_rows; rewrite ?mean_two_rows, ?mean_single; reflexivity.

Ltac test_two :=
  unfold unchanged; change (Z.to_nat 2) with 2%nat;
  cbn [seq all_unchanged getitem nth_error rbind];
  rewrite ?(proj2 (all_equal_true _ _) eq_refl), ?all_equal_at_temperature by lra;
  reflexivity.

(** The run on [two_rows] with both initial centroids on the first row.
    First iteration: both rows go to cluster 0, whose centroid moves to 5. *)
Lemma two_rows_assigned_1 :
  assignment_step two_rows 2 [at_temperature 0; at_temperature 0] = Ok [[0; 1]; []]%nat.
Proof. assign_two. Qed.

Lemma two_rows_updated_1 :
  update_step two_rows [[0; 1]; []]%nat [at_temperature 0; at_temperature 0]
  = Ok [at_temperature 5; at_temperature 0].
Proof. update_two. Qed.

Lemma two_rows_changed_1 :
  unchanged 2 [at_temperature 5; at_temperature 0] [at_temperature 0; at_temperature 0]
  = Ok false.
Proof. test_two. Qed.

(** Second iteration: against the centroids 5 and 0 the first row is
    nearer to centroid 1 and the second to centroid 0. *)
Lemma two_rows_reassigned :
  assignment_step two_rows 2 [at_temperature 5; at_temperature 0] = Ok [[1]; [0]]%nat.
Proof. assign_two. Qed.

Lemma two_rows_updated_2 :
  update_step two_rows [[1]; [0]]%nat [at_temperature 5; at_temperature 0]
  = Ok [at_temperature 10; at_temperature 0].
Proof. update_two. Qed.

Lemma two_rows_changed_2 :
  unchanged 2 [at_temperature 10; at_temperature 0] [at_temperature 5; at_temperature 0]
  = Ok false.
Proof. test_two. Qed.

(** Third iteration: nothing moves. *)
Lemma two_rows_assigned_3 :
  assignment_step two_rows 2 [at_temperature 10; at_temperature 0] = Ok [[1]; [0]]%nat.
Proof. assign_two. Qed.

Lemma two_rows_updated_3 :
  update_step two_rows [[1]; [0]]%nat [at_temperature 10; at_temperature 0]
  = Ok [at_temperature 10; at_temperature 0].
Proof. update_two. Qed.

Lemma two_rows_unchanged_3 :
  unchanged 2 [at_temperature 10; at_temperature 0] [at_temperature 10; at_temperature 0]
  = Ok true.
Proof. test_two. Qed.

(** Stopped after one iteration, the run returns the clusters of the
    first assignment with the centroids of the first update. *)
Lemma two_rows_capped :
  kmeans_run two_rows 2 1 first_row =
  Ok (IterationCap, ([[0; 1]; []]%nat, [at_temperature 5; at_temperature 0])).
Proof.
  unfold kmeans_run.
  change (initial_centroids two_rows 2 first_row)
    with (Ok [at_temperature 0; at_temperature 0]).
  change (Z.to_nat 1) with 1%nat. cbn [rbind].
  now rewrite (iterate_continue _ _ _ _ _ _ _
                 two_rows_assigned_1 two_rows_updated_1 two_rows_changed_1).
Qed.

(** Run with the default 100 iterations, it converges in the third. *)
Lemma two_rows_converged :
  kmeans_run two_rows 2 100 first_row =
  Ok (Converged, ([[1]; [0]]%nat, [at_temperature 10; at_temperature 0])).
Proof.
  unfold kmeans_run.
  change (initial_centroids two_rows 2 first_row)
    with (Ok [at_temperature 0; at_temperature 0]).
  change (Z.to_nat 100) with (3 + 97)%nat. cbn [rbind Nat.add].
  rewrite (iterate_continue _ _ _ _ _ _ _
             two_rows_assigned_1 two_rows_updated_1 two_rows_changed_1).
  rewrite (iterate_continue _ _ _ _ _ _ _
             two_rows_reassigned two_rows_updated_2 two_rows_changed_2).
  exact (iterate_break _ _ _ _ _ _ _
           two_rows_assigned_3 two_rows_updated_3 two_rows_unchanged_3).
Qed.

(** ** The clustering engine *)

(** C4.  When [kmeans_clustering] leaves its loop through the convergence
    test, the clusters it returns are exactly what the assignment step
    computes against the centroids it returns, and one more iteration
    from those centroids stops at once with the same clusters and the
    same centroids. *)
Theorem converged_assignment_is_reproduced :
  forall (df : DataFrame) (k mi : Z) (rnd : nat -> nat)
         (cl : list (list nat)) (cs : list Point),
    kmeans_run df k mi rnd = Ok (Converged, (cl, cs)) ->
    kmeans_clustering df k mi rnd = Ok (cl, cs) /\
    assignment_step df k cs = Ok cl /\
    iterate df k 1 None cs = Ok (Converged, (cl, cs)).
Proof.
  intros df k mi rnd cl cs H. split; [| split].
  - unfold kmeans_clustering. now rewrite H.
  - apply kmeans_run_exit in H. tauto.
  - apply kmeans_run_exit in H. destruct H as (Ha & new & Hu & Hc).
    simpl. rewrite Ha. simpl. rewrite Hu. simpl. now rewrite Hc.
Qed.

Lemma converged_assignment_is_reproduced_witness :
  kmeans_clustering two_rows 2 100 first_row =
    Ok ([[1]; [0]]%nat, [at_temperature 10; at_temperature 0]) /\
  assignment_step two_rows 2 [at_temperature 10; at_temperature 0] = Ok [[1]; [0]]%nat /\
  iterate two_rows 2 1 None [at_temperature 10; at_temperature 0] =
    Ok (Converged, ([[1]; [0]]%nat, [at_temperature 10; at_temperature 0])).
Proof.
  exact (converged_assignment_is_reproduced two_rows 2 100 first_row _ _ two_rows_converged).
Defined.

(** C5.  In an update step a cluster without rows gets the centroid the
    same position had before; the step returns one centroid per cluster.
    On the clusters of an assignment step the update raises nothing, and
    a run that returns does so with exactly [k] clusters and [k]
    centroids. *)
Theorem empty_cluster_keeps_centroid :
  (forall (df : DataFrame) (cl : list (list nat)) (cs new : list Point),
      update_step df cl cs = Ok new ->
      length new = length cl /\
      forall j, nth_error cl j = Some [] ->
                exists c, nth_error cs j = Some c /\ nth_error new j = Some c) /\
  (forall (df : DataFrame) (k : Z) (cs : list Point) (cl : list (list nat)),
      length cs = Z.to_nat k ->
      assignment_step df k cs = Ok cl ->
      exists new, update_step df cl cs = Ok new /\ length new = Z.to_nat k) /\
  (forall (df : DataFrame) (k mi : Z) (rnd : nat -> nat) (e : exit)
          (cl : list (list nat)) (cs : list Point),
      kmeans_run df k mi rnd = Ok (e, (cl, cs)) ->
      length cl = Z.to_nat k /\ length cs = Z.to_nat k /\
      ((0 <= k)%Z -> Z.of_nat (length cs) = k)).
Proof.
  split; [| split].
  - intros df cl cs new H. split; [eapply update_step_length; eauto |].
    apply update_loop_spec in H. destruct H as (_ & _ & H & _). exact H.
  - apply update_step_total.
  - intros df k mi rnd e cl cs H. apply kmeans_run_lengths in H.
    destruct H as [H1 H2]. repeat split; auto. lia.
Qed.

Lemma empty_cluster_keeps_centroid_witness :
  length [mean two_rows; at_temperature 0] = length [[0; 1]; @nil nat]%nat /\
  forall j, nth_error [[0; 1]; []]%nat j = Some [] ->
            exists c, nth_error [at_temperature 0; at_temperature 0] j = Some c /\
                      nth_error [mean two_rows; at_temperature 0] j = Some c.
Proof.
  exact (proj1 empty_cluster_keeps_centroid two_rows [[0; 1]; []]%nat
           [at_temperature 0; at_temperature 0] [mean two_rows; at_temperature 0]
           eq_refl).
Defined.

(** C6.  After an assignment step every row lies in exactly one cluster.
    The centroid at that cluster's position is at the smallest distance
    from the row, and every centroid at a lower position is strictly
    farther: among equidistant nearest centroids the lowest position is
    taken. *)
Theorem assignment_picks_nearest_lowest_index :
  forall (df : DataFrame) (k : Z) (cs : list Point) (cl : list (list nat))
         (i : nat) (p : Point),
    assignment_step df k cs = Ok cl ->
    nth_error df i = Some p ->
    exists j c,
      In i (nth j cl []) /\
      (forall j', In i (nth j' cl []) -> j' = j) /\
      nth_error cs j = Some c /\
      (forall j' c', nth_error cs j' = Some c' ->
                     euclidean_distance p c <= euclidean_distance p c') /\
      (forall j' c', (j' < j)%nat -> nth_error cs j' = Some c' ->
                     euclidean_distance p c < euclidean_distance p c').
Proof.
  intros df k cs cl i p Ha Hp.
  destruct (assign_rows_nearest _ _ _ _ _ Ha i p Hp) as [j Hj].
  apply assignment_step_spec in Ha. destruct Ha as [_ Hin].
  destruct (nearest_spec _ _ _ Hj) as (c & Hc & Hle & Hlt).
  exists j, c. repeat split; auto.
  - apply Hin. now exists p.
  - intros j' Hj'. apply Hin in Hj'. destruct Hj' as (q & Hq & Hn). congruence.
Qed.

Lemma assignment_picks_nearest_lowest_index_witness :
  exists j c,
    In 0%nat (nth j [[1]; [0]]%nat []) /\
    (forall j', In 0%nat (nth j' [[1]; [0]]%nat []) -> j' = j) /\
    nth_error [at_temperature 5; at_temperature 0] j = Some c /\
    (forall j' c', nth_error [at_temperature 5; at_temperature 0] j' = Some c' ->
                   euclidean_distance (at_temperature 0) c
                   <= euclidean_distance (at_temperature 0) c') /\
    (forall j' c', (j' < j)%nat ->
                   nth_error [at_temperature 5; at_temperature 0] j' = Some c' ->
                   euclidean_distance (at_temperature 0) c
                   < euclidean_distance (at_temperature 0) c').
Proof.
  exact (assignment_picks_nearest_lowest_index two_rows 2
           [at_temperature 5; at_temperature 0] [[1]; [0]]%nat 0 (at_temperature 0)
           two_rows_reassigned eq_refl).
Defined.

(** C10.  A run that uses up its iterations returns the centroids of the
    last update together with the clusters assigned against the centroids
    before that update, which differ from the returned ones.  Such a run
    can return a row in a cluster whose centroid is strictly farther from
    it than another returned centroid; a run that ends by the convergence
    test cannot, its clusters being the assignment against the returned
    centroids. *)
Theorem capped_run_returns_stale_assignment :
  (forall (df : DataFrame) (k mi : Z) (rnd : nat -> nat)
          (cl : list (list nat)) (cs : list Point),
      kmeans_run df k mi rnd = Ok (IterationCap, (cl, cs)) ->
      exists prev,
        assignment_step df k prev = Ok cl /\
        update_step df cl prev = Ok cs /\
        unchanged k cs prev = Ok false /\
        cs <> prev) /\
  (exists (df : DataFrame) (k mi : Z) (rnd : nat -> nat)
          (cl : list (list nat)) (cs : list Point)
          (i j j' : nat) (p c c' : Point),
      kmeans_run df k mi rnd = Ok (IterationCap, (cl, cs)) /\
      nth_error df i = Some p /\ In i (nth j cl []) /\
      nth_error cs j = Some c /\ nth_error cs j' = Some c' /\
      euclidean_distance p c' < euclidean_distance p c) /\
  (forall (df : DataFrame) (k mi : Z) (rnd : nat -> nat)
          (cl : list (list nat)) (cs : list Point),
      kmeans_run df k mi rnd = Ok (Converged, (cl, cs)) ->
      assignment_step df k cs = Ok cl).
Proof.
  split; [| split].
  - intros df k mi rnd cl cs H.
    destruct (kmeans_run_exit _ _ _ _ _ _ _ H) as (prev & Ha & Hu & Hc).
    exists prev. repeat split; auto.
    apply all_unchanged_false in Hc. destruct Hc as (i & a & b & _ & Hi & Hi' & Hab).
    intros ->. congruence.
  - exists two_rows, 2%Z, 1%Z, first_row, [[0; 1]; []]%nat,
      [at_temperature 5; at_temperature 0], 0%nat, 0%nat, 1%nat,
      (at_temperature 0), (at_temperature 5), (at_temperature 0).
    split; [exact two_rows_capped |].
    repeat split; try reflexivity; [simpl; auto |].
    rewrite !distance_at_temperature.
    rewrite (Rabs_pos_eq (0 - 0)) by lra. rewrite (Rabs_left1 (0 - 5)) by lra. lra.
  - intros df k mi rnd cl cs H. apply kmeans_run_exit in H. tauto.
Qed.

Lemma capped_run_returns_stale_assignment_witness :
  exists prev,
    assignment_step two_rows 2 prev = Ok [[0; 1]; []]%nat /\
    update_step two_rows [[0; 1]; []]%nat prev = Ok [at_temperature 5; at_temperature 0] /\
    unchanged 2 [at_temperature 5; at_temperature 0] prev = Ok false /\
    [at_temperature 5; at_temperature 0] <> prev.
Proof.
  exact (proj1 capped_run_returns_stale_assignment two_rows 2%Z 1%Z first_row _ _
           two_rows_capped).
Defined.

(** ** Condition labels *)

(** C7, as the specification states it, fails on the labels themselves:
    the script labels a row "Optimal" or "Non-optimal", capitalised, and
    never "optimal" or "non-optimal". *)
Lemma condition_label_is_capitalised :
  euclidean_distance (at_temperature 20) (at_temperature 20) <= optimal_threshold /\
  condition_label (at_temperature 20) 0 [at_temperature 20] optimal_threshold
    = Ok "Optimal"%string /\
  condition_label (at_temperature 20) 0 [at_temperature 20] optimal_threshold
    <> Ok "optimal"%string /\
  optimal_threshold < euclidean_distance (at_temperature 0) (at_temperature 10) /\
  condition_label (at_temperature 0) 0 [at_temperature 10] optimal_threshold
    = Ok "Non-optimal"%string /\
  condition_label (at_temperature 0) 0 [at_temperature 10] optimal_threshold
    <> Ok "non-optimal"%string.
Proof.
  unfold condition_label, optimal_threshold. cbn [getitem nth_error rbind].
  rewrite !distance_at_temperature.
  rewrite (Rabs_pos_eq (20 - 20)) by lra. rewrite (Rabs_left1 (0 - 10)) by lra.
  order_reals. repeat split; try lra; discriminate.
Qed.

(** C7, amended.  For a cluster id that is a position of the centroid
    list, the label is "Optimal" exactly when the Euclidean distance from
    the row to that centroid is at most the threshold, the bound included,
    and "Non-optimal" exactly when it is greater; the label is a function
    of the four inputs. *)
Theorem condition_label_threshold :
  forall (point : Point) (cluster_idx : nat) (cents : list Point)
         (threshold : R) (centroid : Point),
    nth_error cents cluster_idx = Some centroid ->
    (condition_label point cluster_idx cents threshold = Ok "Optimal"%string <->
     euclidean_distance point centroid <= threshold) /\
    (condition_label point cluster_idx cents threshold = Ok "Non-optimal"%string <->
     threshold < euclidean_distance point centroid) /\
    (forall l1 l2,
        condition_label point cluster_idx cents threshold = Ok l1 ->
        condition_label point cluster_idx cents threshold = Ok l2 -> l1 = l2).
Proof.
  intros point cluster_idx cents threshold centroid Hc.
  unfold condition_label, getitem. rewrite Hc. cbn [rbind].
  destruct (Rleb (euclidean_distance point centroid) threshold) eqn:E.
  - apply Rleb_true_iff in E. repeat split; intros; try lra; try discriminate; congruence.
  - apply Rleb_false_iff in E. repeat split; intros; try lra; try discriminate; congruence.
Qed.

Lemma condition_label_threshold_witness :
  (condition_label (at_temperature 20) 0 [at_temperature 20] 2 = Ok "Optimal"%string <->
   euclidean_distance (at_temperature 20) (at_temperature 20) <= 2) /\
  (condition_label (at_temperature 20) 0 [at_temperature 20] 2 = Ok "Non-optimal"%string <->
   2 < euclidean_distance (at_temperature 20) (at_temperature 20)) /\
  (forall l1 l2,
      condition_label (at_temperature 20) 0 [at_temperature 20] 2 = Ok l1 ->
      condition_label (at_temperature 20) 0 [at_temperature 20] 2 = Ok l2 -> l1 = l2).
Proof.
  exact (condition_label_threshold (at_temperature 20) 0 [at_temperature 20] 2
           (at_temperature 20) eq_refl).
Defined.

(** ** Labels of the rows (lines 125-146) *)

Lemma Forall_set_nth {A : Type} (P : A -> Prop) (l : list A) (n : nat) (a : A) :
  Forall P l -> P a -> Forall P (set_nth l n a).
Proof.
  intros Hl Ha. revert n. induction Hl as [| x t Hx Ht IH]; intros [| n]; simpl;
    constructor; auto.
Qed.

Lemma label_cluster_total (bound idx : nat) :
  (idx < bound)%nat ->
  forall (cluster labels : list nat),
    Forall (fun i => (i < length labels)%nat) cluster ->
    Forall (fun c => (c < bound)%nat) labels ->
    exists labels', label_cluster labels idx cluster = Ok labels' /\
                    length labels' = length labels /\
                    Forall (fun c => (c < bound)%nat) labels'.
Proof.
  intros Hidx. induction cluster as [| i rest IH]; intros labels Hv Hb; simpl.
  - now exists labels.
  - inversion Hv as [| ? ? Hi Hrest]; subst.
    destruct (getitem_total labels i Hi) as [x ->]. simpl.
    destruct (IH (set_nth labels i idx)) as (labels' & H1 & H2 & H3).
    + now rewrite length_set_nth.
    + now apply Forall_set_nth.
    + exists labels'. rewrite length_set_nth in H2. auto.
Qed.

Lemma label_clusters_total (bound : nat) :
  forall (cls : list (list nat)) (idx : nat) (labels : list nat),
    (idx + length cls <= bound)%nat ->
    Forall (Forall (fun i => (i < length labels)%nat)) cls ->
    Forall (fun c => (c < bound)%nat) labels ->
    exists labels', label_clusters labels idx cls = Ok labels' /\
                    length labels' = length labels /\
                    Forall (fun c => (c < bound)%nat) labels'.
Proof.
  induction cls as [| cluster rest IH]; intros idx labels Hidx Hv Hb; simpl.
  - now exists labels.
  - simpl in Hidx. inversion Hv as [| ? ? Hc Hrest]; subst.
    destruct (label_cluster_total bound idx ltac:(lia) cluster labels Hc Hb)
      as (l1 & -> & Hlen & Hb1). simpl.
    destruct (IH (S idx) l1) as (l2 & H1 & H2 & H3); [lia | | exact Hb1 |].
    + now rewrite Hlen.
    + exists l2. rewrite Hlen in H2. auto.
Qed.

Lemma cluster_labels_of_total (df : DataFrame) (cls : list (list nat)) :
  cls <> [] ->
  Forall (Forall (fun i => (i < length df)%nat)) cls ->
  exists labels, cluster_labels_of df cls = Ok labels /\
                 length labels = length df /\
                 Forall (fun c => (c < length cls)%nat) labels.
Proof.
  intros Hne Hv. unfold cluster_labels_of.
  destruct (label_clusters_total (length cls) cls 0 (repeat O (length df)))
    as (labels & H1 & H2 & H3).
  - lia.
  - now rewrite repeat_length.
  - apply Forall_forall. intros c Hc. apply repeat_spec in Hc. subst.
    destruct cls; [congruence | simpl; lia].
  - exists labels. rewrite repeat_length in H2. auto.
Qed.

Lemma condition_labels_of_total (cents : list Point) (labels : list nat) :
  Forall (fun c => (c < length cents)%nat) labels ->
  forall (rows : DataFrame) (i : nat),
    (i + length rows <= length labels)%nat ->
    exists ls, condition_labels_of rows labels i cents = Ok ls /\ length ls = length rows.
Proof.
  intros Hb. induction rows as [| p rest IH]; intros i Hi; simpl.
  - now exists [].
  - simpl in Hi. destruct (getitem_total labels i) as [c Hc]; [lia |].
    rewrite Hc. simpl. apply getitem_Ok in Hc.
    assert (Hlt : (c < length cents)%nat).
    { rewrite Forall_forall in Hb. apply Hb. eapply nth_error_In; eauto. }
    unfold condition_label. destruct (getitem_total cents c Hlt) as [x ->]. cbn [rbind].
    destruct (IH (S i)) as (ls & Hls & Hlen); [lia |].
    destruct (Rleb _ _); cbn [rbind]; rewrite Hls; simpl; eexists; split; eauto;
      simpl; now rewrite Hlen.
Qed.

Lemma kmeans_clustering_total (df : DataFrame) (k mi : Z) (rnd : nat -> nat) :
  df <> [] -> (1 <= k)%Z -> (1 <= mi)%Z -> (forall j, (rnd j < length df)%nat) ->
  exists cl cs,
    kmeans_clustering df k mi rnd = Ok (cl, cs) /\
    length cl = Z.to_nat k /\ length cs = Z.to_nat k /\
    Forall (Forall (fun i => (i < length df)%nat)) cl.
Proof.
  intros Hdf Hk Hmi Hrnd.
  destruct (kmeans_run_total df k mi rnd Hdf Hk Hmi Hrnd) as (e & cl & cs & H).
  exists cl, cs. unfold kmeans_clustering. rewrite H. split; [reflexivity |].
  destruct (kmeans_run_lengths _ _ _ _ _ _ _ H) as [H1 H2].
  split; [exact H1 | split; [exact H2 |]].
  apply kmeans_run_exit in H. destruct e.
  - destruct H as [H _]. eapply assignment_step_valid; eauto.
  - destruct H as (prev & H & _). eapply assignment_step_valid; eauto.
Qed.

(** ** The script *)

Lemma length_make_df (t l m : list R) :
  length t = 25%nat -> length l = 25%nat -> length m = 25%nat ->
  length (make_df t l m) = 25%nat.
Proof.
  intros Ht Hl Hm. unfold make_df.
  rewrite length_map, !length_combine, Ht, Hl, Hm. reflexivity.
Qed.

Lemma main_wrong_length (t m l : list R) (db : plant_db) (answers : list string)
    (rnd : nat -> nat) :
  length t <> 25%nat \/ length m <> 25%nat \/ length l <> 25%nat ->
  main t m l db answers rnd = ([length_error], Ok None).
Proof.
  intros H. unfold main.
  destruct (Nat.eqb_spec (length t) 25); [| reflexivity].
  destruct (Nat.eqb_spec (length m) 25); [| reflexivity].
  destruct (Nat.eqb_spec (length l) 25); [| reflexivity].
  tauto.
Qed.

Lemma bind_print_ret {A B : Type} (s : string) (a : A) (f : A -> M B) :
  bind (bind (print s) (fun _ => ret a)) f = (s :: printed (f a), value (f a)).
Proof.
  unfold bind, print, ret, printed, value. simpl. now destruct (f a).
Qed.

(** With an empty [plant_db] the script prints its message, goes on to
    cluster and label the rows, and stops at line 170, where [plant_name]
    was never bound. *)
Lemma main_empty_db (t m l : list R) (answers : list string) (rnd : nat -> nat) :
  length t = 25%nat -> length m = 25%nat -> length l = 25%nat ->
  (forall j, (rnd j < 25)%nat) ->
  main t m l [] answers rnd = ([no_plant_data], Raise NameError).
Proof.
  intros Ht Hm Hl Hrnd. unfold main. rewrite Ht, Hm, Hl.
  change (negb (25 =? 25)%nat || negb (25 =? 25)%nat || negb (25 =? 25)%nat) with false.
  cbv iota. rewrite bind_print_ret.
  pose proof (length_make_df t l m Ht Hl Hm) as Hdf.
  destruct (kmeans_clustering_total (make_df t l m) 3 100 rnd)
    as (cl & cs & Hk & Hcl & Hcs & Hv); try lia.
  { destruct (make_df t l m); [discriminate | discriminate]. }
  { now rewrite Hdf. }
  destruct (cluster_labels_of_total (make_df t l m) cl) as (labels & Hl1 & Hl2 & Hl3);
    [destruct cl; [discriminate | discriminate] | exact Hv |].
  assert (Hb : Forall (fun c => (c < length cs)%nat) labels)
    by (rewrite Hcs, <- Hcl; exact Hl3).
  destruct (condition_labels_of_total cs labels Hb (make_df t l m) O)
    as (ls & Hls & _); [simpl; lia |].
  rewrite Hk, bind_lift_ok, Hl1, bind_lift_ok, Hls, bind_lift_ok.
  reflexivity.
Qed.

Lemma kmeans_without_clusters (df : DataFrame) (k mi : Z) (rnd : nat -> nat) :
  df <> [] -> (k <= 0)%Z ->
  kmeans_clustering df k mi rnd =
  Raise (if (1 <=? mi)%Z then ValueError else UnboundLocalError).
Proof.
  intros Hdf Hk. unfold kmeans_clustering, kmeans_run, initial_centroids.
  replace (Z.to_nat k) with O by lia. cbn [seq mapM rbind].
  destruct (Z.leb_spec 1 mi) as [Hmi | Hmi].
  - destruct (Z.to_nat mi) as [| n] eqn:E; [lia |].
    cbn [iterate]. unfold assignment_step. replace (Z.to_nat k) with O by lia.
    destruct df as [| p rest]; [congruence |]. reflexivity.
  - replace (Z.to_nat mi) with O by lia. reflexivity.
Qed.

(** C3, as the specification states it, fails for [k > n]: on 25 rows
    [kmeans_clustering] accepts [k = 26] and returns 26 centroids. *)
Lemma more_clusters_than_rows_is_accepted :
  length identical_rows = 25%nat /\
  exists cl cs,
    kmeans_clustering identical_rows 26 100 first_row = Ok (cl, cs) /\
    length cs = 26%nat.
Proof.
  split; [reflexivity |].
  destruct (kmeans_clustering_total identical_rows 26 100 first_row)
    as (cl & cs & H & _ & Hcs & _); try lia; try discriminate.
  - intros j. unfold first_row. simpl. lia.
  - exists cl, cs. split; [exact H |]. rewrite Hcs. reflexivity.
Qed.

Lemma kmeans_without_iterations (df : DataFrame) (k mi : Z) (rnd : nat -> nat) :
  df <> [] -> (forall j, (rnd j < length df)%nat) -> (mi < 1)%Z ->
  kmeans_clustering df k mi rnd = Raise UnboundLocalError.
Proof.
  intros Hdf Hrnd Hmi. unfold kmeans_clustering, kmeans_run.
  destruct (initial_centroids_total df k rnd Hdf Hrnd) as [cs0 ->].
  replace (Z.to_nat mi) with O by lia. reflexivity.
Qed.

(** A run that is not left by [break] is left after the last iteration,
    and returns. *)
Lemma kmeans_run_capped (df : DataFrame) (k mi : Z) (rnd : nat -> nat) :
  df <> [] -> (1 <= k)%Z -> (1 <= mi)%Z -> (forall j, (rnd j < length df)%nat) ->
  (forall cl cs, kmeans_run df k mi rnd <> Ok (Converged, (cl, cs))) ->
  exists cl cs, kmeans_run df k mi rnd = Ok (IterationCap, (cl, cs)).
Proof.
  intros Hdf Hk Hmi Hrnd Hnot.
  destruct (kmeans_run_total df k mi rnd Hdf Hk Hmi Hrnd) as ([|] & cl & cs & H).
  - destruct (Hnot cl cs H).
  - now exists cl, cs.
Qed.

(** C3, amended.  The script ends at the length check, with its error
    message and before any clustering, as soon as one column does not hold
    exactly 25 values.  [kmeans_clustering] itself checks nothing.  On
    data that has rows: with [max_iterations < 1] it raises
    [UnboundLocalError] whatever [k] is; with [max_iterations >= 1] it
    raises [ValueError] (from [min] of no distances) when [k <= 0], and
    when [k >= 1] it returns [k] clusters and [k] centroids, whether or
    not [k] exceeds the number of rows.  A run that reaches
    [max_iterations] without converging signals nothing: it returns its
    [k] clusters and [k] centroids like any other.  ([rnd] stands for
    [random.randint], whose draws lie within the rows.) *)
Theorem clustering_input_errors :
  (forall (t m l : list R) (db : plant_db) (answers : list string) (rnd : nat -> nat),
      length t <> 25%nat \/ length m <> 25%nat \/ length l <> 25%nat ->
      main t m l db answers rnd = ([length_error], Ok None)) /\
  (forall (df : DataFrame) (k mi : Z) (rnd : nat -> nat),
      df <> [] -> (forall j, (rnd j < length df)%nat) -> (mi < 1)%Z ->
      kmeans_clustering df k mi rnd = Raise UnboundLocalError) /\
  (forall (df : DataFrame) (k mi : Z) (rnd : nat -> nat),
      df <> [] -> (k <= 0)%Z -> (1 <= mi)%Z ->
      kmeans_clustering df k mi rnd = Raise ValueError) /\
  (forall (df : DataFrame) (k mi : Z) (rnd : nat -> nat),
      df <> [] -> (1 <= k)%Z -> (1 <= mi)%Z -> (forall j, (rnd j < length df)%nat) ->
      exists cl cs,
        kmeans_clustering df k mi rnd = Ok (cl, cs) /\
        length cl = Z.to_nat k /\ length cs = Z.to_nat k) /\
  (forall (df : DataFrame) (k mi : Z) (rnd : nat -> nat),
      df <> [] -> (1 <= k)%Z -> (1 <= mi)%Z -> (forall j, (rnd j < length df)%nat) ->
      (forall cl cs, kmeans_run df k mi rnd <> Ok (Converged, (cl, cs))) ->
      exists cl cs,
        kmeans_run df k mi rnd = Ok (IterationCap, (cl, cs)) /\
        kmeans_clustering df k mi rnd = Ok (cl, cs) /\
        length cl = Z.to_nat k /\ length cs = Z.to_nat k).
Proof.
  split; [| split; [| split; [| split]]].
  - apply main_wrong_length.
  - apply kmeans_without_iterations.
  - intros df k mi rnd Hdf Hk Hmi.
    rewrite (kmeans_without_clusters df k mi rnd Hdf Hk).
    destruct (Z.leb_spec 1 mi); [reflexivity | lia].
  - intros df k mi rnd Hdf Hk Hmi Hrnd.
    destruct (kmeans_clustering_total df k mi rnd Hdf Hk Hmi Hrnd)
      as (cl & cs & H & Hcl & Hcs & _).
    now exists cl, cs.
  - intros df k mi rnd Hdf Hk Hmi Hrnd Hnot.
    destruct (kmeans_run_capped df k mi rnd Hdf Hk Hmi Hrnd Hnot) as (cl & cs & H).
    destruct (kmeans_run_lengths _ _ _ _ _ _ _ H) as [Hcl Hcs].
    exists cl, cs. unfold kmeans_clustering. rewrite H. auto.
Qed.

Lemma clustering_input_errors_witness :
  main short_column short_column short_column two_plants [] first_row
  = ([length_error], Ok None) /\
  exists cl cs,
    kmeans_run two_rows 2 1 first_row = Ok (IterationCap, (cl, cs)) /\
    kmeans_clustering two_rows 2 1 first_row = Ok (cl, cs) /\
    length cl = Z.to_nat 2 /\ length cs = Z.to_nat 2.
Proof.
  split.
  - apply (proj1 clustering_input_errors). left. discriminate.
  - apply (proj2 (proj2 (proj2 (proj2 clustering_input_errors))) two_rows 2%Z 1%Z first_row).
    + discriminate.
    + lia.
    + lia.
    + intros j. unfold first_row, two_rows. simpl. lia.
    + intros cl cs. rewrite two_rows_capped. discriminate.
Defined.

(** ** The best plant *)



Lemma float_max_big : 10000000 <= float_max.
Proof. unfold float_max. apply IZR_le. now vm_compute. Qed.

(** What line 200 decides for one distance [s]: either the best entry
    stays, its distance being at most [s], or [s] being [inf] while there
    is no best entry yet; or [s] becomes the best distance, finite and
    strictly below the one it replaces. *)
Lemma is_closer_cases (s : R) (best : option (string * R)) :
  (is_closer s best = false /\
   ((exists n0 d0, best = Some (n0, d0) /\ d0 <= s) \/ (best = None /\ float_max < s)))
  \/
  (is_closer s best = true /\
   (best = None -> s <= float_max) /\
   (forall n0 d0, best = Some (n0, d0) -> s < d0)).
Proof.
  destruct best as [[n0 d0] |]; cbn [is_closer].
  - destruct (Rltb s d0) eqn:E.
    + right. apply Rltb_true_iff in E. split; [reflexivity |].
      split; [discriminate | now intros ? ? [= <- <-]].
    + left. apply Rltb_false_iff in E. split; [reflexivity |]. left. now exists n0, d0.
  - destruct (Rleb s float_max) eqn:E.
    + right. apply Rleb_true_iff in E. split; [reflexivity |].
      split; [trivial | discriminate].
    + left. apply Rleb_false_iff in E. split; [reflexivity |]. right. now split.
Qed.

(** The loop keeps the first of the smallest finite scores.  Started with
    a best entry of finite distance, or with none, on a database that
    gets the scores [scores], it ends either with what it started with,
    no score being smaller (and every score being [inf] if it started
    with none), or with an entry of the database whose score is finite,
    smaller than the one it started with, at most every score and
    strictly below every score before it. *)
Lemma best_plant_loop_first (med : medians) :
  forall (db : plant_db) (scores : list R) (best : option (string * R)),
    Forall2 (fun entry s => plant_distance (snd entry) med = ([], Ok s)) db scores ->
    (forall n0 d0, best = Some (n0, d0) -> d0 <= float_max) ->
    exists best',
      best_plant_loop db med best = ([], Ok best') /\
      ((best' = best /\
        (forall n0 d0, best = Some (n0, d0) -> Forall (fun s => d0 <= s) scores) /\
        (best = None -> Forall (fun s => float_max < s) scores))
       \/
       exists i name ranges d,
         nth_error db i = Some (name, ranges) /\
         nth_error scores i = Some d /\
         best' = Some (name, d) /\
         d <= float_max /\
         Forall (fun s => d <= s) scores /\
         (forall j s, (j < i)%nat -> nth_error scores j = Some s -> d < s) /\
         (forall n0 d0, best = Some (n0, d0) -> d < d0)).
Proof.
  intros db scores best Hscores. revert best.
  induction Hscores as [| [name0 ranges0] s0 rest scores Hs _ IH]; intros best Hfin.
  - exists best. cbn [best_plant_loop]. split; [reflexivity |]. left.
    split; [reflexivity |]. split; [constructor | constructor].
  - cbn [snd] in Hs. cbn [best_plant_loop]. rewrite Hs.
    change (@pair (list string) (result R) [] (Ok s0)) with (ret s0). rewrite bind_ret_l.
    destruct (is_closer_cases s0 best) as [[-> Hkeep] | (-> & Hnone & Hlt0)].
    + (* the best entry stays *)
      destruct (IH best Hfin) as (best' & Hloop & Hcase).
      exists best'. split; [exact Hloop |].
      destruct Hcase as [(-> & Hmin & Hinf)
                        | (i & name & ranges & d & Hi & Hsi & Hb' & Hd & Hmin & Hfirst & Hlt)].
      * left. split; [reflexivity |]. split.
        -- intros n0 d0 E. constructor; [| exact (Hmin n0 d0 E)].
           destruct Hkeep as [(n1 & d1 & E1 & Hle) | [E1 _]]; [| congruence].
           rewrite E1 in E. now injection E as <- <-.
        -- intros E. constructor; [| exact (Hinf E)].
           destruct Hkeep as [(n1 & d1 & E1 & _) | [_ Hover]]; [congruence | exact Hover].
      * right. exists (S i), name, ranges, d.
        split; [exact Hi |]. split; [exact Hsi |]. split; [exact Hb' |].
        split; [exact Hd |].
        assert (Hds : d < s0).
        { destruct Hkeep as [(n1 & d1 & E1 & Hle) | [_ Hover]].
          - pose proof (Hlt n1 d1 E1). lra.
          - lra. }
        split; [constructor; [lra | exact Hmin] |]. split; [| exact Hlt].
        intros [| j] s Hj; cbn [nth_error]; [intros [= <-]; exact Hds | apply Hfirst; lia].
    + (* [s0] becomes the best distance *)
      assert (Hs0 : s0 <= float_max).
      { destruct best as [[n1 d1] |]; [| now apply Hnone].
        pose proof (Hlt0 n1 d1 eq_refl). pose proof (Hfin n1 d1 eq_refl). lra. }
      destruct (IH (Some (name0, s0))) as (best' & Hloop & Hcase).
      { now intros ? ? [= <- <-]. }
      exists best'. split; [exact Hloop |]. right.
      destruct Hcase as [(-> & Hmin & _)
                        | (i & name & ranges & d & Hi & Hsi & Hb' & Hd & Hmin & Hfirst & Hlt)].
      * exists O, name0, ranges0, s0.
        split; [reflexivity |]. split; [reflexivity |]. split; [reflexivity |].
        split; [exact Hs0 |].
        split; [constructor; [lra | exact (Hmin _ _ eq_refl)] |].
        split; [intros; lia | exact Hlt0].
      * pose proof (Hlt _ _ eq_refl) as Hds.
        exists (S i), name, ranges, d.
        split; [exact Hi |]. split; [exact Hsi |]. split; [exact Hb' |].
        split; [exact Hd |].
        split; [constructor; [lra | exact Hmin] |]. split.
        -- intros [| j] s Hj; cbn [nth_error]; [intros [= <-]; exact Hds | apply Hfirst; lia].
        -- intros n1 d1 E. pose proof (Hlt0 n1 d1 E). lra.
Qed.

(** Lines 181-205 on a database that gets the scores [scores]: when every
    score is [inf] (and so when there is no entry at all) line 205 raises
    [AttributeError]; otherwise the first entry with the smallest score is
    the best plant. *)
Lemma suggest_best_plant_spec (med : medians) (db : plant_db) (scores : list R) :
  Forall2 (fun entry s => plant_distance (snd entry) med = ([], Ok s)) db scores ->
  (Forall (fun s => float_max < s) scores /\
   suggest_best_plant db med = ([], Raise AttributeError))
  \/
  exists i name ranges d,
    suggest_best_plant db med = ([], Ok (name, d)) /\
    nth_error db i = Some (name, ranges) /\
    nth_error scores i = Some d /\
    d <= float_max /\
    Forall (fun s => d <= s) scores /\
    (forall j s, (j < i)%nat -> nth_error scores j = Some s -> d < s).
Proof.
  intros Hscores.
  destruct (best_plant_loop_first med db scores None Hscores) as (best' & Hloop & Hcase);
    [discriminate |].
  unfold suggest_best_plant. rewrite Hloop.
  change (@pair (list string) (result (option (string * R))) [] (Ok best'))
    with (ret best').
  rewrite bind_ret_l.
  destruct Hcase as [(-> & _ & Hinf)
                    | (i & name & ranges & d & Hi & Hsi & -> & Hd & Hmin & Hfirst & _)].
  - left. split; [now apply Hinf | reflexivity].
  - right. exists i, name, ranges, d. repeat (split; [assumption || reflexivity |]).
    exact Hfirst.
Qed.


Lemma suggest_best_plant_empty (med : medians) :
  suggest_best_plant [] med = ([], Raise AttributeError).
Proof. reflexivity. Qed.

(** A malformed range in a database that is not empty: the only entry of
    [broken_plants] has the moisture range "abc"; its conversion prints
    the message and returns [None], and the first subscript of line 192
    raises [TypeError]. *)
Lemma malformed_range_stops_scoring :
  plant_distance broken observed
    = (["Error converting range: abc"%string], Raise TypeError) /\
  suggest_best_plant broken_plants observed
    = (["Error converting range: abc"%string], Raise TypeError).
Proof.
  split; reflexivity.
Qed.

(** With the largest float for a median, a range whose bounds are of
    ordinary size is left far behind: its contribution is all but
    [float_max]. *)
Lemma contribution_at_largest (lo hi : Z) (c : R) :
  (lo <= 1000000)%Z -> (hi <= 1000000)%Z ->
  contribution lo hi float_max c -> float_max - 1000000 <= c.
Proof.
  intros Hlo Hhi [_ Hout]. apply IZR_le in Hlo, Hhi.
  pose proof float_max_big as Hbig.
  rewrite Hout by (right; lra).
  pose proof (Rle_abs (float_max - (IZR lo + IZR hi) / 2)). lra.
Qed.

(** So three such ranges give a sum beyond [float_max]: the score of the
    plant is [inf]. *)
Lemma score_at_largest (ranges : plant_ranges) (mlo mhi llo lhi tlo thi : Z) :
  parse_range (moisture_range ranges) = Ok (mlo, mhi) ->
  parse_range (light_range ranges) = Ok (llo, lhi) ->
  parse_range (temp_range ranges) = Ok (tlo, thi) ->
  (mlo <= 1000000)%Z -> (mhi <= 1000000)%Z ->
  (llo <= 1000000)%Z -> (lhi <= 1000000)%Z ->
  (tlo <= 1000000)%Z -> (thi <= 1000000)%Z ->
  exists s, plant_distance ranges largest = ([], Ok s) /\ float_max < s.
Proof.
  intros Hm Hl Ht Hm1 Hm2 Hl1 Hl2 Ht1 Ht2.
  destruct (plant_distance_contributions ranges largest _ _ _ _ _ _ Hm Hl Ht)
    as (ct & cl & cm & H & Hct & Hcl & Hcm).
  cbn [largest median_temperature median_light_level median_moisture] in Hct, Hcl, Hcm.
  apply contribution_at_largest in Hct, Hcl, Hcm; try assumption.
  exists (ct + cl + cm). split; [exact H |].
  pose proof float_max_big. lra.
Qed.

Lemma two_plants_at_largest :
  exists s1 s2,
    Forall2 (fun entry s => plant_distance (snd entry) largest = ([], Ok s))
            two_plants [s1; s2] /\
    Forall (fun s => float_max < s) [s1; s2].
Proof.
  destruct (score_at_largest rose 40 60 400 600 15 25) as (s1 & H1 & L1);
    try reflexivity; try lia.
  destruct (score_at_largest cactus 10 20 800 1000 25 35) as (s2 & H2 & L2);
    try reflexivity; try lia.
  exists s1, s2. split; repeat constructor; assumption.
Qed.

(** C8.  The code where it departs from the specification.  With 25
    values in each column and a [plant_db] without entries the script prints "No
    plant data available." and, instead of stopping there, goes on to
    cluster the rows and ends with [NameError] at line 170, where
    [plant_name] was never bound; the scoring loop itself, had it been
    reached, would have left [best_plant] at [None] and raised
    [AttributeError] at line 205.  And a database that is not empty gets no
    best match either when every score overflows: with the largest float
    for the three medians both plants of [two_plants] score [inf], line
    200 never holds and line 205 raises [AttributeError]. *)
Theorem empty_database_falls_through :
  main temperatures moistures light_levels [] [] first_row
  = ([no_plant_data], Raise NameError) /\
  suggest_best_plant [] observed = ([], Raise AttributeError) /\
  (two_plants <> [] /\
   suggest_best_plant two_plants largest = ([], Raise AttributeError)).
Proof.
  split; [| split; [reflexivity | split; [discriminate |]]].
  - apply main_empty_db; try reflexivity.
    intros j. unfold first_row. lia.
  - destruct two_plants_at_largest as (s1 & s2 & Hscores & Hover).
    destruct (suggest_best_plant_spec largest two_plants _ Hscores)
      as [[_ H] | (i & name & ranges & d & _ & _ & Hsi & Hd & _)]; [exact H |].
    apply nth_error_In in Hsi. rewrite Forall_forall in Hover.
    specialize (Hover d Hsi). lra.
Qed.

(** The specification's scenario: [rose] fits the observed medians,
    [cactus] is 445 away, and [rose] is suggested with score 0. *)
Lemma rose_fits : plant_distance rose observed = ([], Ok 0).
Proof.
  rewrite (plant_distance_parsed rose observed (40, 60)%Z (400, 600)%Z (15, 25)%Z)
    by reflexivity.
  unfold lift, range_penalty, observed;
    cbn [median_moisture median_light_level median_temperature].
  rewrite add_penalty_inside by lra. unfold rbind at 1.
  rewrite add_penalty_inside by lra. unfold rbind.
  now rewrite add_penalty_inside by lra.
Qed.

Lemma cactus_is_far : plant_distance cactus observed = ([], Ok 445).
Proof.
  rewrite (plant_distance_parsed cactus observed (10, 20)%Z (800, 1000)%Z (25, 35)%Z)
    by reflexivity.
  unfold lift, range_penalty, observed;
    cbn [median_moisture median_light_level median_temperature].
  rewrite add_penalty_outside by lra. unfold rbind at 1.
  rewrite add_penalty_outside by lra. unfold rbind.
  rewrite add_penalty_outside by lra.
  do 2 f_equal.
  rewrite (Rabs_pos_eq (50 - _)) by lra.
  rewrite (Rabs_left1 (500 - _)) by lra.
  rewrite (Rabs_left1 (20 - _)) by lra.
  lra.
Qed.

Lemma rose_is_suggested :
  suggest_best_plant two_plants observed = ([], Ok ("rose"%string, 0)).
Proof.
  pose proof float_max_big as Hbig.
  unfold suggest_best_plant, two_plants. cbn [best_plant_loop].
  rewrite rose_fits. change (@pair (list string) (result R) [] (Ok 0)) with (ret 0).
  rewrite bind_ret_l. rewrite cactus_is_far.
  change (@pair (list string) (result R) [] (Ok 445)) with (ret 445).
  rewrite bind_ret_l. cbn [is_closer]. order_reals. cbn [is_closer]. order_reals.
  reflexivity.
Qed.

(** ** The scenario of 25 identical rows *)

Lemma nearest_first (p c : Point) (cs : list Point) :
  Forall (fun c' => euclidean_distance p c <= euclidean_distance p c') cs ->
  nearest p (c :: cs) = Ok O.
Proof.
  intros H. apply (nearest_intro p (c :: cs) O c); [reflexivity | | intros; lia].
  intros [| i] c'; simpl.
  - intros [= <-]. lra.
  - intros Hi. rewrite Forall_forall in H. apply H. eapply nth_error_In; eauto.
Qed.

Lemma mean_identical_rows : mean identical_rows = at_temperature 20.
Proof.
  unfold mean, identical_rows, at_temperature, sum. simpl. f_equal; lra.
Qed.

Lemma identical_rows_assigned :
  assignment_step identical_rows 3 (repeat (at_temperature 20) 3)
  = Ok [seq 0 25; []; []].
Proof.
  unfold assignment_step, identical_rows.
  change (Z.to_nat 3) with 3%nat. cbn [assign_rows repeat].
  rewrite !nearest_first by (repeat constructor; lra).
  reflexivity.
Qed.

Lemma identical_rows_updated :
  update_step identical_rows [seq 0 25; []; []] (repeat (at_temperature 20) 3)
  = Ok (repeat (at_temperature 20) 3).
Proof.
  unfold update_step. cbn [seq update_loop].
  change (iloc identical_rows
            [0; 1; 2; 3; 4; 5; 6; 7; 8; 9; 10; 11; 12; 13; 14; 15; 16; 17; 18; 19;
             20; 21; 22; 23; 24]%nat)
    with (Ok identical_rows).
  cbn [rbind]. rewrite mean_identical_rows. reflexivity.
Qed.

Lemma identical_rows_unchanged :
  unchanged 3 (repeat (at_temperature 20) 3) (repeat (at_temperature 20) 3) = Ok true.
Proof.
  unfold unchanged. change (Z.to_nat 3) with 3%nat.
  cbn [seq all_unchanged getitem nth_error rbind repeat].
  rewrite !(proj2 (all_equal_true _ _) eq_refl). reflexivity.
Qed.

(** With [k = 3] the three initial centroids coincide: every row goes to
    cluster 0, the two other clusters stay empty and keep their centroids,
    and the first iteration converges. *)
Lemma identical_rows_converge :
  kmeans_run identical_rows 3 100 first_row =
  Ok (Converged, ([seq 0 25; []; []], repeat (at_temperature 20) 3)).
Proof.
  unfold kmeans_run.
  change (initial_centroids identical_rows 3 first_row)
    with (Ok (repeat (at_temperature 20) 3)).
  change (Z.to_nat 100) with (1 + 99)%nat. cbn [rbind Nat.add].
  exact (iterate_break _ _ _ _ _ _ _
           identical_rows_assigned identical_rows_updated identical_rows_unchanged).
Qed.

(** Every row is then labelled "Optimal", at distance 0 from its
    centroid. *)
Lemma identical_rows_labelled :
  cluster_labels_of identical_rows [seq 0 25; []; []] = Ok (repeat O 25) /\
  condition_labels_of identical_rows (repeat O 25) 0 (repeat (at_temperature 20) 3)
  = Ok (repeat "Optimal"%string 25).
Proof.
  split; [reflexivity |].
  unfold identical_rows. cbn [repeat condition_labels_of getitem nth_error rbind].
  unfold condition_label, optimal_threshold. cbn [getitem nth_error rbind].
  rewrite euclidean_distance_refl.
  rewrite (proj2 (Rleb_true_iff 0 2)) by lra.
  reflexivity.
Qed.

Lemma sorted_repeat (x : R) (n : nat) : sorted (repeat x n) = repeat x n.
Proof.
  induction n as [| n IH]; [reflexivity |].
  unfold sorted in *. simpl. rewrite IH.
  destruct n; simpl; [reflexivity | now rewrite Rleb_refl].
Qed.

Lemma median_repeat_25 (x : R) : median (repeat x 25) = x.
Proof.
  unfold median. rewrite sorted_repeat, repeat_length. reflexivity.
Qed.

(** The whole script on that scenario, the user choosing "rose": nothing
    is printed by way of diagnostics, and the report suggests "rose" with
    distance 0. *)
Lemma main_on_identical_rows :
  main temperatures moistures light_levels two_plants ["rose"%string] first_row =
  ([], Ok (Some {| clusters := [seq 0 25; []; []];
                   centroids := repeat (at_temperature 20) 3;
                   cluster_labels := repeat O 25;
                   condition_labels := repeat "Optimal"%string 25;
                   median_conditions := observed;
                   best_plant := "rose"%string;
                   best_distance := 0 |})).
Proof.
  unfold main.
  change (negb (length temperatures =? 25)%nat || negb (length moistures =? 25)%nat
          || negb (length light_levels =? 25)%nat) with false.
  cbv iota.
  change (make_df temperatures light_levels moistures) with identical_rows.
  change (ask_plant_name two_plants "" ["rose"%string]) with (ret "rose"%string).
  cbn [two_plants]. fold two_plants. rewrite !bind_ret_l.
  unfold kmeans_clustering. rewrite identical_rows_converge. cbn [rbind snd].
  rewrite bind_lift_ok.
  destruct identical_rows_labelled as [E1 E2].
  rewrite E1, bind_lift_ok, E2, bind_lift_ok, bind_ret_l.
  unfold temperatures, moistures, light_levels. rewrite !median_repeat_25.
  fold observed.
  change (lookup two_plants "rose") with (Ok rose). rewrite bind_lift_ok.
  change (convert_range_to_tuple (moisture_range rose)) with (ret (Some (40, 60)%Z)).
  change (convert_range_to_tuple (light_range rose)) with (ret (Some (400, 600)%Z)).
  change (convert_range_to_tuple (temp_range rose)) with (ret (Some (15, 25)%Z)).
  rewrite !bind_ret_l.
  change (print_ranges (Some (15, 25)%Z) (Some (400, 600)%Z) (Some (40, 60)%Z))
    with (Ok tt).
  rewrite bind_lift_ok, rose_is_suggested.
  change (@pair (list string) (result (string * R)) [] (Ok ("rose"%string, 0)))
    with (ret ("rose"%string, 0)).
  rewrite bind_ret_l. cbn [fst snd].
  change (lookup two_plants "rose") with (Ok rose). rewrite bind_lift_ok.
  change (convert_range_to_tuple (moisture_range rose)) with (ret (Some (40, 60)%Z)).
  change (convert_range_to_tuple (light_range rose)) with (ret (Some (400, 600)%Z)).
  change (convert_range_to_tuple (temp_range rose)) with (ret (Some (15, 25)%Z)).
  rewrite !bind_ret_l.
  change (print_ranges (Some (15, 25)%Z) (Some (400, 600)%Z) (Some (40, 60)%Z))
    with (Ok tt).
  rewrite bind_lift_ok. reflexivity.
Qed.

(* ================================================================== *)
(** * Further properties *)
(* ================================================================== *)

(** ** The distance *)

Lemma square_sum_nonneg (x y z : R) : 0 <= x ^ 2 + y ^ 2 + z ^ 2.
Proof. nra. Qed.

Lemma cauchy_schwarz_3 (a1 a2 a3 b1 b2 b3 : R) :
  (a1 * b1 + a2 * b2 + a3 * b3) ^ 2
  <= (a1 ^ 2 + a2 ^ 2 + a3 ^ 2) * (b1 ^ 2 + b2 ^ 2 + b3 ^ 2).
Proof.
  assert (H : (a1 ^ 2 + a2 ^ 2 + a3 ^ 2) * (b1 ^ 2 + b2 ^ 2 + b3 ^ 2)
              - (a1 * b1 + a2 * b2 + a3 * b3) ^ 2
              = (a1 * b2 - a2 * b1) ^ 2 + (a1 * b3 - a3 * b1) ^ 2
                + (a2 * b3 - a3 * b2) ^ 2) by ring.
  pose proof (square_sum_nonneg (a1 * b2 - a2 * b1) (a1 * b3 - a3 * b1) (a2 * b3 - a3 * b2)).
  lra.
Qed.

Lemma norm_triangle (a1 a2 a3 b1 b2 b3 : R) :
  sqrt ((a1 + b1) ^ 2 + (a2 + b2) ^ 2 + (a3 + b3) ^ 2)
  <= sqrt (a1 ^ 2 + a2 ^ 2 + a3 ^ 2) + sqrt (b1 ^ 2 + b2 ^ 2 + b3 ^ 2).
Proof.
  set (A := sqrt (a1 ^ 2 + a2 ^ 2 + a3 ^ 2)).
  set (B := sqrt (b1 ^ 2 + b2 ^ 2 + b3 ^ 2)).
  assert (HA : 0 <= A) by apply sqrt_pos.
  assert (HB : 0 <= B) by apply sqrt_pos.
  assert (HA2 : A * A = a1 ^ 2 + a2 ^ 2 + a3 ^ 2)
    by (apply sqrt_sqrt, square_sum_nonneg).
  assert (HB2 : B * B = b1 ^ 2 + b2 ^ 2 + b3 ^ 2)
    by (apply sqrt_sqrt, square_sum_nonneg).
  assert (Hab : a1 * b1 + a2 * b2 + a3 * b3 <= A * B).
  { destruct (Rle_lt_dec (a1 * b1 + a2 * b2 + a3 * b3) (A * B)) as [H | H]; [exact H |].
    pose proof (cauchy_schwarz_3 a1 a2 a3 b1 b2 b3) as CS.
    rewrite <- HA2, <- HB2 in CS.
    assert (0 <= A * B) by nra.
    nra. }
  rewrite <- (sqrt_square (A + B)) by lra.
  apply sqrt_le_1; [apply square_sum_nonneg | nra | nra].
Qed.

Lemma square_sum_zero (x y z : R) :
  x ^ 2 + y ^ 2 + z ^ 2 = 0 -> x = 0 /\ y = 0 /\ z = 0.
Proof.
  intros H.
  pose proof (pow2_ge_0 x). pose proof (pow2_ge_0 y). pose proof (pow2_ge_0 z).
  repeat split; apply Rsqr_eq_0; rewrite Rsqr_pow2; lra.
Qed.

(** X1.  [euclidean_distance] is a metric on rows: never negative, zero
    exactly between equal rows, symmetric, and obeying the triangle
    inequality. *)
Theorem euclidean_distance_metric :
  forall p q r : Point,
    0 <= euclidean_distance p q /\
    (euclidean_distance p q = 0 <-> p = q) /\
    euclidean_distance p q = euclidean_distance q p /\
    euclidean_distance p r <= euclidean_distance p q + euclidean_distance q r.
Proof.
  intros p q r. unfold euclidean_distance. rewrite !sum_three.
  split; [apply sqrt_pos |]. split; [| split].
  - split.
    + intros H. apply sqrt_eq_0 in H; [| apply square_sum_nonneg].
      destruct p as [pt pl pm], q as [qt ql qm]. simpl in H.
      apply square_sum_zero in H. destruct H as (Ht & Hl & Hm).
      f_equal; lra.
    + intros ->. rewrite !Rminus_diag.
      replace (0 ^ 2 + 0 ^ 2 + 0 ^ 2) with 0 by ring. apply sqrt_0.
  - f_equal. ring.
  - replace (temperature p - temperature r)
      with ((temperature p - temperature q) + (temperature q - temperature r)) by ring.
    replace (light_level p - light_level r)
      with ((light_level p - light_level q) + (light_level q - light_level r)) by ring.
    replace (moisture p - moisture r)
      with ((moisture p - moisture q) + (moisture q - moisture r)) by ring.
    apply norm_triangle.
Qed.

(** ** The clusters returned by [kmeans_clustering] *)

Lemma NoDup_snoc {A : Type} (l : list A) (a : A) :
  NoDup l -> ~ In a l -> NoDup (l ++ [a]).
Proof.
  intros Hl Ha. apply NoDup_app; [exact Hl | repeat constructor; simpl; tauto |].
  intros x Hx [<- | []]. contradiction.
Qed.

(** An assignment step adds each row once: rows already placed lie below
    the row being placed. *)
Lemma assign_rows_nodup (rows : DataFrame) (cs : list Point) :
  forall (i : nat) (cl cl' : list (list nat)),
    Forall (fun c => NoDup c /\ Forall (fun x => (x < i)%nat) c) cl ->
    assign_rows rows i cs cl = Ok cl' ->
    Forall (fun c => NoDup c /\ Forall (fun x => (x < i + length rows)%nat) c) cl'.
Proof.
  induction rows as [| p rest IH]; intros i cl cl' Hcl; simpl.
  - intros [= <-]. rewrite Nat.add_0_r. exact Hcl.
  - destruct (nearest p cs) as [ci | e]; simpl; [| discriminate].
    unfold append_to. destruct (getitem cl ci) as [c | e] eqn:Ec; simpl; [| discriminate].
    intros H. apply IH in H.
    + eapply Forall_impl; [| exact H]. intros c' [H1 H2]. split; [exact H1 |].
      eapply Forall_impl; [| exact H2]. simpl. intros; lia.
    + apply getitem_Ok in Ec.
      assert (Hc : NoDup c /\ Forall (fun x => (x < i)%nat) c).
      { rewrite Forall_forall in Hcl. apply Hcl. eapply nth_error_In; eauto. }
      apply Forall_set_nth.
      * eapply Forall_impl; [| exact Hcl]. intros c' [H1 H2]. split; [exact H1 |].
        eapply Forall_impl; [| exact H2]. simpl. intros; lia.
      * destruct Hc as [H1 H2]. split.
        -- apply NoDup_snoc; [exact H1 |]. intros Hin.
           rewrite Forall_forall in H2. specialize (H2 _ Hin). lia.
        -- apply Forall_app. split.
           ++ eapply Forall_impl; [| exact H2]. simpl. intros; lia.
           ++ repeat constructor.
Qed.

Lemma assignment_step_nodup (df : DataFrame) (k : Z) (cs : list Point) (cl : list (list nat)) :
  assignment_step df k cs = Ok cl -> Forall (@NoDup nat) cl.
Proof.
  intros H. apply assign_rows_nodup in H.
  - eapply Forall_impl; [| exact H]. simpl. tauto.
  - apply Forall_forall. intros c Hc. apply repeat_spec in Hc. subst.
    split; constructor.
Qed.

(** The clusters of any run that returns are those of an assignment step. *)
Lemma kmeans_clustering_assigned (df : DataFrame) (k mi : Z) (rnd : nat -> nat)
    (cl : list (list nat)) (cs : list Point) :
  kmeans_clustering df k mi rnd = Ok (cl, cs) ->
  exists e, kmeans_run df k mi rnd = Ok (e, (cl, cs)) /\
            exists prev, assignment_step df k prev = Ok cl.
Proof.
  unfold kmeans_clustering.
  destruct (kmeans_run df k mi rnd) as [[e [cl' cs']] | x] eqn:E; simpl; [| discriminate].
  intros [= -> ->]. exists e. split; [reflexivity |].
  apply kmeans_run_exit in E. destruct e.
  - exists cs. tauto.
  - destruct E as (prev & H & _). now exists prev.
Qed.

(** Every row index lies in exactly one cluster of an assignment step. *)
Lemma assignment_step_covers (df : DataFrame) (k : Z) (prev : list Point)
    (cl : list (list nat)) :
  assignment_step df k prev = Ok cl ->
  forall i, (i < length df)%nat ->
    exists j, (j < length cl)%nat /\ In i (nth j cl []) /\
              forall j', In i (nth j' cl []) -> j' = j.
Proof.
  intros Ha i Hi. pose proof (assignment_step_spec _ _ _ _ Ha) as [Hlen Hin].
  destruct (nth_error df i) as [p |] eqn:Ep; [| apply nth_error_None in Ep; lia].
  destruct (assign_rows_nearest _ _ _ _ _ Ha i p Ep) as [j Hj].
  assert (Hij : In i (nth j cl [])) by (apply Hin; now exists p).
  exists j. split; [| split; [exact Hij |]].
  - destruct (Nat.lt_ge_cases j (length cl)) as [Hlt | Hge]; [exact Hlt |].
    rewrite nth_overflow in Hij by exact Hge. destruct Hij.
  - intros j' Hj'. apply Hin in Hj'. destruct Hj' as (q & Hq & Hn). congruence.
Qed.

(** X2.  The clusters that [kmeans_clustering] returns partition the rows:
    there are [k] of them, every row index lies in exactly one cluster,
    no cluster holds an index twice, and no cluster holds anything but
    row indices. *)
Theorem kmeans_clusters_partition_rows :
  forall (df : DataFrame) (k mi : Z) (rnd : nat -> nat)
         (cl : list (list nat)) (cs : list Point),
    kmeans_clustering df k mi rnd = Ok (cl, cs) ->
    length cl = Z.to_nat k /\
    (forall i, (i < length df)%nat ->
       exists j, (j < length cl)%nat /\ In i (nth j cl []) /\
                 forall j', In i (nth j' cl []) -> j' = j) /\
    Forall (@NoDup nat) cl /\
    Forall (Forall (fun i => (i < length df)%nat)) cl.
Proof.
  intros df k mi rnd cl cs H.
  destruct (kmeans_clustering_assigned _ _ _ _ _ _ H) as (e & _ & prev & Ha).
  split; [exact (proj1 (assignment_step_spec _ _ _ _ Ha)) |]. split; [| split].
  - eapply assignment_step_covers; eauto.
  - eapply assignment_step_nodup; eauto.
  - eapply assignment_step_valid; eauto.
Qed.

Lemma kmeans_clusters_partition_rows_witness :
  length [[1]; [0]]%nat = Z.to_nat 2 /\
  (forall i, (i < length two_rows)%nat ->
     exists j, (j < length [[1]; [0]]%nat)%nat /\ In i (nth j [[1]; [0]]%nat []) /\
               forall j', In i (nth j' [[1]; [0]]%nat []) -> j' = j) /\
  Forall (@NoDup nat) [[1]; [0]]%nat /\
  Forall (Forall (fun i => (i < length two_rows)%nat)) [[1]; [0]]%nat.
Proof.
  apply (kmeans_clusters_partition_rows two_rows 2 100 first_row
           [[1]; [0]]%nat [at_temperature 10; at_temperature 0]).
  unfold kmeans_clustering. rewrite two_rows_converged. reflexivity.
Defined.

(** X3.  In what [kmeans_clustering] returns, the centroid of every
    cluster that has rows is the mean of those rows, on whichever way the
    loop was left. *)
Theorem kmeans_centroids_are_cluster_means :
  forall (df : DataFrame) (k mi : Z) (rnd : nat -> nat)
         (cl : list (list nat)) (cs : list Point) (j : nat) (cluster : list nat),
    kmeans_clustering df k mi rnd = Ok (cl, cs) ->
    nth_error cl j = Some cluster -> cluster <> [] ->
    exists rows, iloc df cluster = Ok rows /\
                 length rows = length cluster /\
                 nth_error cs j = Some (mean rows).
Proof.
  intros df k mi rnd cl cs j cluster H Hj Hne.
  destruct (kmeans_clustering_assigned _ _ _ _ _ _ H) as (e & Hrun & _).
  pose proof (kmeans_run_lengths _ _ _ _ _ _ _ Hrun) as [Hcl Hcs].
  apply kmeans_run_exit in Hrun.
  assert (Hupd : exists prev, update_step df cl prev = Ok cs).
  { destruct e.
    - destruct Hrun as (_ & new & Hu & Hc). exists cs.
      rewrite (unchanged_true k new cs) in Hu; auto.
      apply update_step_length in Hu. congruence.
    - destruct Hrun as (prev & _ & Hu & _). now exists prev. }
  destruct Hupd as [prev Hu]. apply update_loop_spec in Hu.
  destruct Hu as (_ & _ & _ & Hmean).
  destruct (Hmean j cluster Hj Hne) as (rows & Hrows & Hnth).
  exists rows. split; [exact Hrows | split; [| exact Hnth]].
  eapply mapM_length; eauto.
Qed.

Lemma kmeans_centroids_are_cluster_means_witness :
  exists rows, iloc two_rows [1]%nat = Ok rows /\
               length rows = length [1]%nat /\
               nth_error [at_temperature 10; at_temperature 0] 0 = Some (mean rows).
Proof.
  apply (kmeans_centroids_are_cluster_means two_rows 2 100 first_row
           [[1]; [0]]%nat [at_temperature 10; at_temperature 0] 0 [1]%nat).
  - unfold kmeans_clustering. rewrite two_rows_converged. reflexivity.
  - reflexivity.
  - discriminate.
Defined.

Lemma iterate_converged_more (df : DataFrame) (k : Z) :
  forall (n m : nat) (cl0 cl0' : option (list (list nat))) (cs0 : list Point)
         (r : list (list nat) * list Point),
    iterate df k n cl0 cs0 = Ok (Converged, r) ->
    iterate df k (n + m) cl0' cs0 = Ok (Converged, r).
Proof.
  induction n as [| n IH]; intros m cl0 cl0' cs0 r; simpl.
  - destruct cl0; discriminate.
  - destruct (assignment_step df k cs0) as [cl1 | x]; simpl; [| discriminate].
    destruct (update_step df cl1 cs0) as [new | x]; simpl; [| discriminate].
    destruct (unchanged k new cs0) as [[|] | x]; simpl; [| | discriminate].
    + auto.
    + apply IH.
Qed.

(** X4.  Once a run has converged, allowing more iterations changes
    nothing: with any larger [max_iterations] the same clusters and
    centroids are returned. *)
Theorem converged_result_is_stable :
  forall (df : DataFrame) (k mi mi' : Z) (rnd : nat -> nat)
         (cl : list (list nat)) (cs : list Point),
    kmeans_run df k mi rnd = Ok (Converged, (cl, cs)) ->
    (mi <= mi')%Z ->
    kmeans_run df k mi' rnd = Ok (Converged, (cl, cs)) /\
    kmeans_clustering df k mi' rnd = Ok (cl, cs).
Proof.
  intros df k mi mi' rnd cl cs H Hle.
  assert (H' : kmeans_run df k mi' rnd = Ok (Converged, (cl, cs))).
  { unfold kmeans_run in *.
    destruct (initial_centroids df k rnd) as [cs0 | x]; simpl in *; [| discriminate].
    replace (Z.to_nat mi') with (Z.to_nat mi + (Z.to_nat mi' - Z.to_nat mi))%nat by lia.
    eapply iterate_converged_more; eauto. }
  split; [exact H' |]. unfold kmeans_clustering. now rewrite H'.
Qed.

Lemma converged_result_is_stable_witness :
  kmeans_run two_rows 2 1000 first_row
    = Ok (Converged, ([[1]; [0]]%nat, [at_temperature 10; at_temperature 0])) /\
  kmeans_clustering two_rows 2 1000 first_row
    = Ok ([[1]; [0]]%nat, [at_temperature 10; at_temperature 0]).
Proof.
  apply (converged_result_is_stable two_rows 2 100 1000 first_row _ _ two_rows_converged).
  lia.
Defined.

(** X5.  On data without rows [kmeans_clustering] raises [ValueError]
    as soon as one centroid is asked for ([random.randint(0, -1)]); asked
    for none, it returns no clusters and no centroids if an iteration
    runs, and raises [UnboundLocalError] if none does. *)
Theorem kmeans_on_no_rows :
  forall (k mi : Z) (rnd : nat -> nat),
    kmeans_clustering [] k mi rnd =
    if (1 <=? k)%Z then Raise ValueError
    else if (1 <=? mi)%Z then Ok ([], [])
    else Raise UnboundLocalError.
Proof.
  intros k mi rnd. unfold kmeans_clustering, kmeans_run, initial_centroids.
  destruct (Z.leb_spec 1 k) as [Hk | Hk].
  - destruct (Z.to_nat k) as [| n] eqn:E; [lia |]. reflexivity.
  - replace (Z.to_nat k) with O by lia. cbn [seq mapM rbind].
    destruct (Z.leb_spec 1 mi) as [Hmi | Hmi].
    + destruct (Z.to_nat mi) as [| n] eqn:E; [lia |].
      cbn [iterate]. unfold assignment_step, update_step, unchanged.
      replace (Z.to_nat k) with O by lia. reflexivity.
    + replace (Z.to_nat mi) with O by lia. reflexivity.
Qed.

(** ** Cluster labels and condition labels of the rows *)

Lemma nth_error_set_nth {A : Type} (l : list A) (n m : nat) (a : A) :
  (n < length l)%nat ->
  nth_error (set_nth l n a) m = if (m =? n)%nat then Some a else nth_error l m.
Proof.
  revert n m. induction l as [| x t IH]; intros [| n] [| m]; simpl; intros H;
    try lia; auto.
  apply IH. lia.
Qed.

Lemma label_cluster_spec (idx : nat) :
  forall (cluster labels labels' : list nat),
    label_cluster labels idx cluster = Ok labels' ->
    length labels' = length labels /\
    forall i, (In i cluster -> nth_error labels' i = Some idx) /\
              (~ In i cluster -> nth_error labels' i = nth_error labels i).
Proof.
  induction cluster as [| i0 rest IH]; intros labels labels'; simpl.
  - intros [= <-]. split; [reflexivity |]. intros i. tauto.
  - destruct (getitem labels i0) as [x | e] eqn:E; simpl; [| discriminate].
    apply getitem_Ok in E.
    assert (Hi0 : (i0 < length labels)%nat) by (apply nth_error_Some; congruence).
    intros H. apply IH in H. destruct H as [Hlen H]. rewrite length_set_nth in Hlen.
    split; [exact Hlen |]. intros i. destruct (H i) as [Hin Hout].
    destruct (in_dec Nat.eq_dec i rest) as [Hr | Hr].
    + split; [intros _; auto | tauto].
    + rewrite (Hout Hr), (nth_error_set_nth _ _ _ _ Hi0).
      destruct (Nat.eqb_spec i i0) as [-> | Hne]; split; intros; try tauto.
      destruct H0 as [-> | ?]; tauto.
Qed.

(** After lines 126-128 a row carries the position of the last cluster
    that holds it, and 0 if no cluster does. *)
Lemma label_clusters_spec :
  forall (cls : list (list nat)) (idx : nat) (labels labels' : list nat),
    label_clusters labels idx cls = Ok labels' ->
    length labels' = length labels /\
    forall i,
      ((forall j c, nth_error cls j = Some c -> ~ In i c) ->
       nth_error labels' i = nth_error labels i) /\
      (forall j c, nth_error cls j = Some c -> In i c ->
         (forall j' c', (j < j')%nat -> nth_error cls j' = Some c' -> ~ In i c') ->
         nth_error labels' i = Some (idx + j)%nat).
Proof.
  induction cls as [| cluster rest IH]; intros idx labels labels'; simpl.
  - intros [= <-]. split; [reflexivity |]. intros i.
    split; [reflexivity | intros [| j]; discriminate].
  - destruct (label_cluster labels idx cluster) as [l1 | e] eqn:E1; simpl; [| discriminate].
    apply label_cluster_spec in E1. destruct E1 as [Hlen1 H1].
    intros H. apply IH in H. destruct H as [Hlen H].
    split; [congruence |]. intros i. destruct (H i) as [Hnone Hsome].
    destruct (H1 i) as [Hin1 Hout1]. split.
    + intros Hno. rewrite Hnone.
      * apply Hout1. exact (Hno O cluster eq_refl).
      * intros j c Hj. exact (Hno (S j) c Hj).
    + intros [| j] c; simpl.
      * intros [= <-] Hin Hlast. rewrite Hnone.
        -- rewrite Nat.add_0_r. now apply Hin1.
        -- intros j' c' Hj'. apply (Hlast (S j') c'); [lia | exact Hj'].
      * intros Hj Hin Hlast. rewrite (Hsome j c Hj Hin).
        -- f_equal. lia.
        -- intros j' c' Hlt Hj'. apply (Hlast (S j') c'); [lia | exact Hj'].
Qed.

Lemma label_clusters_succeeds (cls : list (list nat)) (labels : list nat) (idx : nat) :
  Forall (Forall (fun i => (i < length labels)%nat)) cls ->
  exists labels', label_clusters labels idx cls = Ok labels'.
Proof.
  intros Hv.
  set (bound := (idx + length cls + S (list_max labels))%nat).
  destruct (label_clusters_total bound cls idx labels) as (l' & H & _); [lia | exact Hv | | eauto].
  apply Forall_forall. intros c Hc.
  assert (c <= list_max labels)%nat; [| lia].
  pose proof (proj1 (list_max_le labels (list_max labels)) (Nat.le_refl _)) as Hmax.
  rewrite Forall_forall in Hmax. now apply Hmax.
Qed.

Lemma nth_In_nth_error {A : Type} (l : list (list A)) (j : nat) (x : A) :
  In x (nth j l []) <-> exists c, nth_error l j = Some c /\ In x c.
Proof.
  split.
  - intros H. destruct (nth_error l j) as [c |] eqn:E.
    + exists c. split; [reflexivity |]. now rewrite (nth_error_nth _ _ _ E) in H.
    + apply nth_error_None in E. rewrite nth_overflow in H by exact E. destruct H.
  - intros (c & E & H). now rewrite (nth_error_nth _ _ _ E).
Qed.

(** The labels of the clusters of an assignment step. *)
Lemma assignment_labels (df : DataFrame) (k : Z) (prev : list Point)
    (cl : list (list nat)) :
  assignment_step df k prev = Ok cl ->
  exists labels,
    cluster_labels_of df cl = Ok labels /\
    length labels = length df /\
    forall i j, (i < length df)%nat ->
                (nth_error labels i = Some j <-> In i (nth j cl [])).
Proof.
  intros Ha. unfold cluster_labels_of.
  destruct (label_clusters_succeeds cl (repeat O (length df)) 0) as [labels Hl].
  { rewrite repeat_length. eapply assignment_step_valid; eauto. }
  exists labels. split; [exact Hl |].
  apply label_clusters_spec in Hl. destruct Hl as [Hlen Hl].
  rewrite repeat_length in Hlen. split; [exact Hlen |].
  intros i j Hi.
  destruct (assignment_step_covers _ _ _ _ Ha i Hi) as (j0 & Hj0 & Hin0 & Huniq).
  assert (Hlab : nth_error labels i = Some j0).
  { apply nth_In_nth_error in Hin0. destruct Hin0 as (c & Hc & Hic).
    destruct (Hl i) as [_ Hsome]. rewrite (Hsome j0 c Hc Hic); [reflexivity |].
    intros j' c' Hlt Hc' Hic'.
    assert (j' = j0); [| lia]. apply Huniq. apply nth_In_nth_error. eauto. }
  split.
  - intros H. rewrite Hlab in H. injection H as <-. exact Hin0.
  - intros H. rewrite (Huniq j H). exact Hlab.
Qed.

(** X6.  On the clusters that [kmeans_clustering] returns, lines 125-128
    give every row the position of the cluster that holds it: the label
    of row [i] is [j] exactly when [i] lies in cluster [j]. *)
Theorem cluster_labels_name_the_cluster :
  forall (df : DataFrame) (k mi : Z) (rnd : nat -> nat)
         (cl : list (list nat)) (cs : list Point),
    kmeans_clustering df k mi rnd = Ok (cl, cs) ->
    exists labels,
      cluster_labels_of df cl = Ok labels /\
      length labels = length df /\
      forall i j, (i < length df)%nat ->
                  (nth_error labels i = Some j <-> In i (nth j cl [])).
Proof.
  intros df k mi rnd cl cs H.
  destruct (kmeans_clustering_assigned _ _ _ _ _ _ H) as (e & _ & prev & Ha).
  eapply assignment_labels; eauto.
Qed.

Lemma cluster_labels_name_the_cluster_witness :
  exists labels,
    cluster_labels_of two_rows [[1]; [0]]%nat = Ok labels /\
    length labels = length two_rows /\
    forall i j, (i < length two_rows)%nat ->
                (nth_error labels i = Some j <-> In i (nth j [[1]; [0]]%nat [])).
Proof.
  apply (cluster_labels_name_the_cluster two_rows 2 100 first_row
           [[1]; [0]]%nat [at_temperature 10; at_temperature 0]).
  unfold kmeans_clustering. rewrite two_rows_converged. reflexivity.
Defined.

(** ** Range strings *)

Import Cases.

Lemma occurs_lstrip (c : ascii) (s : string) :
  occurs c s = false -> occurs c (lstrip s) = false.
Proof.
  induction s as [| c' s IH]; simpl; [auto |].
  intros H. apply orb_false_iff in H. destruct H as [H1 H2].
  destruct (is_space c'); [auto |]. simpl. now rewrite H1, H2.
Qed.

Lemma occurs_rstrip (c : ascii) (s : string) :
  occurs c s = false -> occurs c (rstrip s) = false.
Proof.
  induction s as [| c' s IH]; simpl; [auto |].
  intros H. apply orb_false_iff in H. destruct H as [H1 H2].
  specialize (IH H2). destruct (rstrip s) as [| c'' r].
  - destruct (is_space c'); simpl; [reflexivity | now rewrite H1].
  - simpl in *. now rewrite H1, IH.
Qed.

Lemma occurs_split (c : ascii) (s : string) :
  Forall (fun f => occurs c f = false) (split c s).
Proof.
  induction s as [| c' s IH]; simpl; [repeat constructor |].
  destruct (Ascii.eqb c' c) eqn:E.
  - constructor; [reflexivity | exact IH].
  - destruct (split c s) as [| f fs]; [repeat constructor; simpl; now rewrite E |].
    inversion IH; subst. constructor; [simpl; now rewrite E | assumption].
Qed.

Lemma digit_value_nonneg (c : ascii) : is_digit c = true -> (0 <= digit_value c)%Z.
Proof.
  unfold is_digit, digit_value. intros H. apply andb_true_iff in H.
  destruct H as [H _]. apply Nat.leb_le in H. lia.
Qed.

Lemma digits_nonneg (s : string) :
  forall (acc : Z) (b : bool) (v : Z), (0 <= acc)%Z -> digits acc b s = Some v -> (0 <= v)%Z.
Proof.
  induction s as [| c s IH]; intros acc b v Hacc; cbn [digits].
  - destruct b; [intros [= <-]; exact Hacc | discriminate].
  - destruct (is_digit c) eqn:Ed.
    + apply IH. pose proof (digit_value_nonneg c Ed). lia.
    + destruct (Ascii.eqb c "_"); [| discriminate].
      destruct b; [| discriminate]. now apply IH.
Qed.

Lemma int_nonneg (s : string) (v : Z) :
  occurs "-" s = false -> int s = Ok v -> (0 <= v)%Z.
Proof.
  intros Hs. unfold int, strip.
  pose proof (occurs_rstrip _ _ (occurs_lstrip _ _ Hs)) as Hb.
  destruct (rstrip (lstrip s)) as [| c r] eqn:E.
  - simpl. discriminate.
  - assert (Hc : Ascii.eqb c "-" = false).
    { simpl in Hb. apply orb_false_iff in Hb. tauto. }
    assert (Hplain : forall o, (match o with Some v' => Ok v' | None => Raise ValueError end) = Ok v ->
                               (forall v', o = Some v' -> (0 <= v')%Z) -> (0 <= v)%Z).
    { intros [v' |]; [intros [= <-] H; now apply H | discriminate]. }
    destruct (Ascii.eqb_spec c "+") as [-> | Hplus].
    + intros H. apply (Hplain _ H). intros v' Hv'.
      destruct (digits 0 false r) as [x |] eqn:Ex; [| discriminate].
      injection Hv' as <-. eapply digits_nonneg; [| exact Ex]. lia.
    + destruct (Ascii.eqb_spec c "-") as [-> | Hminus]; [discriminate |].
      intros H.
      assert (Hplain' : (match digits 0 false (String c r) with
                         | Some v' => Ok v' | None => Raise ValueError end) = Ok v).
      { revert H. clear -Hplus Hminus.
        destruct c as [[|] [|] [|] [|] [|] [|] [|] [|]]; try exact (fun H => H);
          congruence. }
      apply (Hplain _ Hplain'). intros v' Hv'.
      eapply digits_nonneg; [| exact Hv']. lia.
Qed.

(** X8.  [convert_range_to_tuple] never returns a negative bound: every
    hyphen is taken as the separator, so a range written with a negative
    number has more than two fields and converts to [None]. *)
Theorem converted_bounds_are_not_negative :
  forall (s : string) (lo hi : Z),
    value (convert_range_to_tuple s) = Ok (Some (lo, hi)) ->
    (0 <= lo)%Z /\ (0 <= hi)%Z.
Proof.
  intros s lo hi. unfold convert_range_to_tuple, parse_range.
  pose proof (occurs_split "-" (replace_en_dash s)) as Hf.
  destruct (split "-" (replace_en_dash s)) as [| a [| b [| c l]]]; simpl;
    try discriminate.
  inversion Hf as [| ? ? Ha Hf']; subst. inversion Hf' as [| ? ? Hb _]; subst.
  destruct (int a) as [x | e1] eqn:Ea; simpl.
  - destruct (int b) as [y | e2] eqn:Eb; simpl.
    + intros [= -> ->].
      split; [exact (int_nonneg a lo Ha Ea) | exact (int_nonneg b hi Hb Eb)].
    + destruct e2; discriminate.
  - destruct e1; discriminate.
Qed.

Lemma converted_bounds_are_not_negative_witness : (0 <= 40)%Z /\ (0 <= 60)%Z.
Proof.
  exact (converted_bounds_are_not_negative "40-60" 40 60 eq_refl).
Defined.

Lemma replace_en_dash_step (c1 c2 c3 : ascii) (r : string) :
  replace_en_dash (String c1 (String c2 (String c3 r))) =
  if (nat_of_ascii c1 =? 226)%nat && (nat_of_ascii c2 =? 128)%nat
     && (nat_of_ascii c3 =? 147)%nat
  then String "-" (replace_en_dash r)
  else String c1 (replace_en_dash (String c2 (String c3 r))).
Proof. reflexivity. Qed.

Lemma replace_en_dash_first (c : ascii) (s : string) :
  nat_of_ascii c <> 226%nat ->
  replace_en_dash (String c s) = String c (replace_en_dash s).
Proof.
  intros H. destruct s as [| c2 [| c3 r]]; try reflexivity.
  rewrite replace_en_dash_step. apply Nat.eqb_neq in H. now rewrite H.
Qed.

Lemma replace_en_dash_second (c1 c2 : ascii) (s : string) :
  nat_of_ascii c2 <> 128%nat ->
  replace_en_dash (String c1 (String c2 s)) = String c1 (replace_en_dash (String c2 s)).
Proof.
  intros H. destruct s as [| c3 r]; [reflexivity |].
  rewrite replace_en_dash_step. apply Nat.eqb_neq in H.
  now rewrite H, andb_false_r.
Qed.

Lemma replace_en_dash_third (c1 c2 c3 : ascii) (s : string) :
  nat_of_ascii c3 <> 147%nat ->
  replace_en_dash (String c1 (String c2 (String c3 s)))
  = String c1 (replace_en_dash (String c2 (String c3 s))).
Proof.
  intros H. rewrite replace_en_dash_step. apply Nat.eqb_neq in H.
  now rewrite H, andb_false_r.
Qed.

(** Replacing en-dashes goes through a string piece by piece at a byte
    that is neither the second nor the third byte of an en-dash: no
    en-dash that starts before such a byte reaches it. *)
Lemma replace_en_dash_app (x : ascii) (t : string) :
  nat_of_ascii x <> 128%nat -> nat_of_ascii x <> 147%nat ->
  forall (n : nat) (a : string),
    (String.length a <= n)%nat ->
    replace_en_dash (a ++ String x t)
    = (replace_en_dash a ++ replace_en_dash (String x t))%string.
Proof.
  intros H2 H3. induction n as [| n IH]; intros a Hlen.
  - destruct a; [reflexivity | simpl in Hlen; lia].
  - destruct a as [| c1 [| c2 [| c3 a]]]; simpl in Hlen.
    + reflexivity.
    + cbn [append]. now rewrite replace_en_dash_second.
    + cbn [append]. rewrite replace_en_dash_third by exact H3.
      now rewrite replace_en_dash_second.
    + cbn [append]. rewrite !replace_en_dash_step.
      destruct ((nat_of_ascii c1 =? 226)%nat && (nat_of_ascii c2 =? 128)%nat
                && (nat_of_ascii c3 =? 147)%nat).
      * cbn [append]. f_equal. apply IH. lia.
      * cbn [append]. f_equal.
        change (String c2 (String c3 (a ++ String x t)))
          with (String c2 (String c3 a) ++ String x t)%string.
        apply IH. simpl. lia.
Qed.

(** X9.  An en-dash is read exactly as a hyphen: writing either between
    the same two texts gives the same converted range, and "750–900"
    converts to (750, 900). *)
Theorem en_dash_reads_as_hyphen :
  forall a b : string,
    parse_range (a ++ en_dash ++ b) = parse_range (a ++ "-" ++ b) /\
    value (convert_range_to_tuple (a ++ en_dash ++ b))
      = value (convert_range_to_tuple (a ++ "-" ++ b)) /\
    convert_range_to_tuple ("750" ++ en_dash ++ "900") = ([], Ok (Some (750, 900)%Z)).
Proof.
  intros a b.
  assert (H : parse_range (a ++ en_dash ++ b) = parse_range (a ++ "-" ++ b)).
  { assert (E : replace_en_dash (a ++ en_dash ++ b) = replace_en_dash (a ++ "-" ++ b)).
    { change (en_dash ++ b)%string
        with (String (ascii_of_nat 226) (String (ascii_of_nat 128)
                (String (ascii_of_nat 147) b))).
      change ("-" ++ b)%string with (String "-" b).
      rewrite (replace_en_dash_app (ascii_of_nat 226) _) with (n := String.length a);
        [| now vm_compute | now vm_compute | apply Nat.le_refl].
      rewrite (replace_en_dash_app "-" _) with (n := String.length a);
        [| now vm_compute | now vm_compute | apply Nat.le_refl].
      f_equal. rewrite (replace_en_dash_first "-" b) by now vm_compute.
      reflexivity. }
    unfold parse_range. now rewrite E. }
  split; [exact H |]. split; [| reflexivity].
  unfold convert_range_to_tuple. rewrite H.
  destruct (parse_range (a ++ "-" ++ b)) as [t | []]; reflexivity.
Qed.

(** ** The best plant, once more *)



Lemma contribution_zero (lo hi : Z) (median c : R) :
  (lo <= hi)%Z -> contribution lo hi median c ->
  (c = 0 <-> IZR lo <= median <= IZR hi).
Proof.
  intros Hle [Hin Hout]. apply IZR_le in Hle.
  destruct (inside_or_outside lo hi median) as [H | H].
  - rewrite (Hin H). tauto.
  - rewrite (Hout H). split; [| lra].
    intros H0. unfold Rabs in H0. destruct Rcase_abs; lra.
Qed.

(** X11.  The score of a plant is never negative, and for ranges with
    [lo <= hi] it is 0 only for a plant whose three ranges contain the
    three medians. *)
Theorem zero_score_means_all_ranges_fit :
  forall (ranges : plant_ranges) (med : medians) (mlo mhi llo lhi tlo thi : Z),
    parse_range (moisture_range ranges) = Ok (mlo, mhi) ->
    parse_range (light_range ranges) = Ok (llo, lhi) ->
    parse_range (temp_range ranges) = Ok (tlo, thi) ->
    (mlo <= mhi)%Z -> (llo <= lhi)%Z -> (tlo <= thi)%Z ->
    exists score,
      plant_distance ranges med = ([], Ok score) /\
      0 <= score /\
      (score = 0 <->
       IZR mlo <= median_moisture med <= IZR mhi /\
       IZR llo <= median_light_level med <= IZR lhi /\
       IZR tlo <= median_temperature med <= IZR thi).
Proof.
  intros ranges med mlo mhi llo lhi tlo thi Hm Hl Ht Lm Ll Lt.
  destruct (plant_distance_contributions ranges med _ _ _ _ _ _ Hm Hl Ht)
    as (ct & cl & cm & -> & Ct & Cl & Cm).
  pose proof (contribution_nonneg _ _ _ _ Ct). pose proof (contribution_nonneg _ _ _ _ Cl).
  pose proof (contribution_nonneg _ _ _ _ Cm).
  pose proof (contribution_zero _ _ _ _ Lt Ct) as Zt.
  pose proof (contribution_zero _ _ _ _ Ll Cl) as Zl.
  pose proof (contribution_zero _ _ _ _ Lm Cm) as Zm.
  exists (ct + cl + cm). split; [reflexivity |]. split; [lra |]. split.
  - intros Hz. assert (ct = 0) by lra. assert (cl = 0) by lra. assert (cm = 0) by lra.
    tauto.
  - intros (Im & Il & It). apply Zt in It. apply Zl in Il. apply Zm in Im. lra.
Qed.

Lemma zero_score_means_all_ranges_fit_witness :
  exists score,
    plant_distance rose observed = ([], Ok score) /\
    0 <= score /\
    (score = 0 <->
     IZR 40 <= median_moisture observed <= IZR 60 /\
     IZR 400 <= median_light_level observed <= IZR 600 /\
     IZR 15 <= median_temperature observed <= IZR 25).
Proof.
  apply (zero_score_means_all_ranges_fit rose observed 40 60 400 600 15 25);
    try reflexivity; lia.
Defined.

(** ** Printed ranges read back *)

Import Printing.

Lemma digit_char (m : nat) :
  (m < 10)%nat ->
  is_digit (ascii_of_nat (48 + m)) = true /\
  digit_value (ascii_of_nat (48 + m)) = Z.of_nat m.
Proof.
  intros H. unfold is_digit, digit_value.
  rewrite nat_ascii_embedding by lia. split; [| lia].
  apply andb_true_iff. split; apply Nat.leb_le; lia.
Qed.

Lemma all_digits_app (p q : string) :
  all_digits (p ++ q) = all_digits p && all_digits q.
Proof.
  induction p as [| c p IH]; simpl; [reflexivity |]. now rewrite IH, andb_assoc.
Qed.

Lemma append_nil_r (s : string) : (s ++ "")%string = s.
Proof. induction s as [| c s IH]; simpl; [reflexivity | now rewrite IH]. Qed.

Lemma append_assoc (p q r : string) : ((p ++ q) ++ r)%string = (p ++ (q ++ r))%string.
Proof. induction p as [| c p IH]; simpl; [reflexivity | now rewrite IH]. Qed.

(** The digits [decimal] writes are read back as the number written. *)
Lemma decimal_spec :
  forall (fuel n : nat) (acc : string),
    (n < fuel)%nat ->
    exists (p : string) (scale : Z),
      decimal fuel n acc = (p ++ acc)%string /\
      all_digits p = true /\ p <> EmptyString /\
      forall (a : Z) (b : bool),
        digits a b (p ++ acc) = digits (a * scale + Z.of_nat n) true acc.
Proof.
  induction fuel as [| fuel IH]; intros n acc Hn; [lia |].
  cbn [decimal].
  assert (Hmod : (n mod 10 < 10)%nat) by (apply Nat.mod_upper_bound; lia).
  destruct (digit_char _ Hmod) as [Hd Hv].
  pose proof (Nat.div_mod_eq n 10) as Hdm.
  destruct (Nat.eqb_spec (n / 10) 0) as [Hz | Hnz].
  - exists (String (ascii_of_nat (48 + n mod 10)) EmptyString), 10%Z.
    split; [reflexivity |]. split; [cbn [all_digits]; now rewrite Hd |]. split; [discriminate |].
    intros a b. cbn [append digits]. rewrite Hd, Hv. f_equal. lia.
  - destruct (IH (n / 10)%nat (String (ascii_of_nat (48 + n mod 10)) acc))
      as (p & scale & Hp & Hall & Hne & Hread).
    { assert (n / 10 < n)%nat by (apply Nat.div_lt; lia). lia. }
    exists (p ++ String (ascii_of_nat (48 + n mod 10)) EmptyString)%string, (scale * 10)%Z.
    rewrite append_assoc. cbn [append].
    split; [exact Hp |].
    split; [rewrite all_digits_app, Hall; cbn [all_digits andb]; now rewrite Hd |].
    split; [destruct p; [congruence | discriminate] |].
    intros a b. rewrite Hread. cbn [digits]. rewrite Hd, Hv. f_equal. lia.
Qed.

Lemma str_nonneg (z : Z) :
  (0 <= z)%Z ->
  all_digits (str z) = true /\ str z <> EmptyString /\
  digits 0 false (str z) = Some z.
Proof.
  intros Hz. destruct z as [| p | p]; [repeat split; discriminate | | lia].
  unfold str.
  destruct (decimal_spec (S (Pos.to_nat p)) (Pos.to_nat p) EmptyString)
    as (d & scale & Hd & Hall & Hne & Hread); [lia |].
  rewrite Hd, append_nil_r in *.
  split; [exact Hall | split; [exact Hne |]].
  specialize (Hread 0%Z false).
  rewrite Hread. cbn [digits]. f_equal. lia.
Qed.

Lemma all_digits_occurs (c : ascii) (s : string) :
  is_digit c = false -> all_digits s = true -> occurs c s = false.
Proof.
  intros Hc. induction s as [| c' s IH]; simpl; [reflexivity |].
  intros H. apply andb_true_iff in H. destruct H as [H1 H2].
  rewrite (IH H2), orb_false_r. apply Ascii.eqb_neq. intros ->. congruence.
Qed.

Lemma all_digits_no_space (s : string) :
  all_digits s = true -> lstrip s = s /\ rstrip s = s.
Proof.
  induction s as [| c s IH]; simpl; [auto |].
  intros H. apply andb_true_iff in H. destruct H as [Hc Hs].
  assert (Hsp : is_space c = false).
  { unfold is_digit, is_space in *. apply andb_true_iff in Hc. destruct Hc as [H1 H2].
    apply Nat.leb_le in H1, H2.
    apply orb_false_iff. split; apply andb_false_iff.
    - right. apply Nat.leb_gt. lia.
    - right. apply Nat.leb_gt. lia. }
  rewrite Hsp. split; [reflexivity |].
  destruct (IH Hs) as [_ ->]. now destruct s.
Qed.

Lemma int_of_digits (s : string) (v : Z) :
  all_digits s = true -> s <> EmptyString -> digits 0 false s = Some v -> int s = Ok v.
Proof.
  intros Hall Hne Hv. unfold int, strip.
  destruct (all_digits_no_space s Hall) as [-> ->].
  destruct s as [| c r]; [congruence |].
  simpl in Hall. apply andb_true_iff in Hall. destruct Hall as [Hc _].
  destruct (Ascii.eqb_spec c "+") as [-> | Hplus]; [discriminate |].
  destruct (Ascii.eqb_spec c "-") as [-> | Hminus]; [discriminate |].
  assert (E : (match digits 0 false (String c r) with
               | Some v' => Ok v' | None => Raise ValueError end) = Ok v)
    by now rewrite Hv.
  revert E. clear -Hplus Hminus.
  destruct c as [[|] [|] [|] [|] [|] [|] [|] [|]]; try exact (fun H => H); congruence.
Qed.

Lemma split_field (sep : ascii) (a : string) :
  occurs sep a = false ->
  split sep a = [a] /\
  forall b, split sep (a ++ String sep b) = a :: split sep b.
Proof.
  induction a as [| c a IH]; simpl.
  - intros _. split; [reflexivity |]. intros b. now rewrite Ascii.eqb_refl.
  - intros H. apply orb_false_iff in H. destruct H as [Hc Ha].
    destruct (IH Ha) as [IH1 IH2]. rewrite Hc, IH1.
    split; [reflexivity |]. intros b. now rewrite IH2.
Qed.

Lemma replace_en_dash_plain (s : string) :
  occurs (ascii_of_nat 226) s = false -> replace_en_dash s = s.
Proof.
  induction s as [| c s IH]; [reflexivity |].
  simpl occurs. intros H. apply orb_false_iff in H. destruct H as [Hc Hs].
  rewrite replace_en_dash_first.
  - now rewrite IH.
  - intros E. apply Ascii.eqb_neq in Hc. apply Hc.
    rewrite <- (ascii_nat_embedding c), E. reflexivity.
Qed.

Lemma occurs_app (c : ascii) (p q : string) :
  occurs c (p ++ q) = occurs c p || occurs c q.
Proof.
  induction p as [| c' p IH]; simpl; [reflexivity |]. now rewrite IH, orb_assoc.
Qed.

(** X10.  A range with bounds that are not negative, printed as the
    script prints it, converts back to the same pair without a message;
    printed with a negative bound it does not convert. *)
Theorem printed_range_reads_back :
  forall lo hi : Z,
    ((0 <= lo)%Z -> (0 <= hi)%Z ->
     convert_range_to_tuple (format_range (lo, hi)) = ([], Ok (Some (lo, hi)))) /\
    ((lo < 0)%Z \/ (hi < 0)%Z ->
     value (convert_range_to_tuple (format_range (lo, hi))) = Ok None).
Proof.
  intros lo hi. split.
  - intros Hlo Hhi.
    destruct (str_nonneg lo Hlo) as (Al & Nl & Dl).
    destruct (str_nonneg hi Hhi) as (Ah & Nh & Dh).
    apply convert_parsed. unfold parse_range, format_range. cbn [fst snd append].
    rewrite replace_en_dash_plain.
    + destruct (split_field "-" (str lo)) as [_ ->];
        [apply all_digits_occurs; [reflexivity | exact Al] |].
      destruct (split_field "-" (str hi)) as [-> _];
        [apply all_digits_occurs; [reflexivity | exact Ah] |].
      rewrite (int_of_digits _ _ Al Nl Dl). cbn [rbind].
      now rewrite (int_of_digits _ _ Ah Nh Dh).
    + rewrite occurs_app. cbn [occurs].
      rewrite !all_digits_occurs by (try reflexivity; assumption). reflexivity.
  - intros Hneg.
    assert (Hfields : exists a b c l,
               split "-" (replace_en_dash (format_range (lo, hi))) = a :: b :: c :: l).
    { unfold format_range. cbn [fst snd].
      assert (Hplain : forall z, occurs (ascii_of_nat 226) (str z) = false).
      { intros z. destruct z as [| p | p]; [reflexivity | |].
        - apply all_digits_occurs; [reflexivity |]. apply (str_nonneg (Zpos p)). lia.
        - unfold str. cbn [occurs]. apply orb_false_iff. split; [reflexivity |].
          apply all_digits_occurs; [reflexivity |]. apply (str_nonneg (Zpos p)). lia. }
      rewrite replace_en_dash_plain
        by (rewrite occurs_app; cbn [append occurs]; now rewrite !Hplain).
      assert (Hsplit : forall s, exists f fs, split "-" s = f :: fs).
      { intros s. destruct s as [| c s]; simpl; [eauto |].
        destruct (Ascii.eqb c "-"); [eauto |]. destruct (split "-" s); eauto. }
      destruct lo as [| p | p].
      - destruct hi as [| q | q]; try lia.
        change (str 0 ++ "-" ++ str (Z.neg q))%string
          with ("0" ++ String "-" (String "-" (str (Zpos q))))%string.
        destruct (split_field "-" "0" eq_refl) as [_ ->].
        cbn [split]. rewrite Ascii.eqb_refl.
        destruct (Hsplit (str (Zpos q))) as (f & fs & ->). eauto.
      - destruct hi as [| q | q]; try lia.
        change (str (Zpos p) ++ "-" ++ str (Z.neg q))%string
          with (str (Zpos p) ++ String "-" (String "-" (str (Zpos q))))%string.
        destruct (split_field "-" (str (Zpos p))) as [_ ->].
        { apply all_digits_occurs; [reflexivity |]. apply (str_nonneg (Zpos p)). lia. }
        cbn [split]. rewrite Ascii.eqb_refl.
        destruct (Hsplit (str (Zpos q))) as (f & fs & ->). eauto.
      - change (str (Z.neg p) ++ "-" ++ str hi)%string
          with (String "-" (str (Zpos p) ++ String "-" (str hi)))%string.
        cbn [split]. rewrite Ascii.eqb_refl.
        destruct (split_field "-" (str (Zpos p))) as [_ ->].
        { apply all_digits_occurs; [reflexivity |]. apply (str_nonneg (Zpos p)). lia. }
        destruct (Hsplit (str hi)) as (f & fs & ->). eauto. }
    destruct Hfields as (a & b & c & l & Hf).
    unfold convert_range_to_tuple, parse_range. rewrite Hf. reflexivity.
Qed.

Lemma printed_range_reads_back_witness :
  convert_range_to_tuple (format_range (15, 25)%Z) = ([], Ok (Some (15, 25)%Z)).
Proof.
  apply (proj1 (printed_range_reads_back 15 25)); lia.
Defined.

(** ** Condition labels of the clustered rows *)

Lemma condition_labels_of_spec (cents : list Point) (labels : list nat) :
  forall (rows : DataFrame) (i : nat) (ls : list string),
    condition_labels_of rows labels i cents = Ok ls ->
    length ls = length rows /\
    forall pos p, nth_error rows pos = Some p ->
      exists j label,
        nth_error labels (i + pos) = Some j /\
        condition_label p j cents optimal_threshold = Ok label /\
        nth_error ls pos = Some label.
Proof.
  induction rows as [| q rest IH]; intros i ls; cbn [condition_labels_of].
  - intros [= <-]. split; [reflexivity |]. intros [| pos] p; discriminate.
  - destruct (getitem labels i) as [j | e] eqn:Ej; cbn [rbind]; [| discriminate].
    destruct (condition_label q j cents optimal_threshold) as [label | e] eqn:El;
      cbn [rbind]; [| discriminate].
    destruct (condition_labels_of rest labels (S i) cents) as [ls' | e] eqn:Er;
      cbn [rbind]; [| discriminate].
    intros [= <-]. destruct (IH _ _ Er) as [Hlen Hrows].
    split; [simpl; now rewrite Hlen |].
    intros [| pos] p; simpl.
    + intros [= <-]. exists j, label. rewrite Nat.add_0_r.
      apply getitem_Ok in Ej. auto.
    + intros Hp. destruct (Hrows pos p Hp) as (j' & label' & H1 & H2 & H3).
      exists j', label'. replace (i + S pos)%nat with (S i + pos)%nat by lia. auto.
Qed.

Lemma condition_label_cases (p : Point) (j : nat) (cents : list Point) (c : Point)
    (label : string) :
  nth_error cents j = Some c ->
  condition_label p j cents optimal_threshold = Ok label ->
  (label = "Optimal"%string <-> euclidean_distance p c <= 2) /\
  (label = "Non-optimal"%string <-> 2 < euclidean_distance p c).
Proof.
  intros Hc. unfold condition_label, getitem, optimal_threshold. rewrite Hc. cbn [rbind].
  destruct (Rleb (euclidean_distance p c) 2) eqn:E; intros [= <-].
  - apply Rleb_true_iff in E. repeat split; intros; try lra; try discriminate; reflexivity.
  - apply Rleb_false_iff in E. repeat split; intros; try lra; try discriminate; reflexivity.
Qed.

(** After a clustering, the labels of both kinds exist, one per row, and
    each row is judged against the centroid of its own cluster. *)
Lemma labels_after_clustering (df : DataFrame) (k : Z) (prev cs : list Point)
    (cl : list (list nat)) :
  assignment_step df k prev = Ok cl -> length cs = length cl ->
  exists labels ls,
    cluster_labels_of df cl = Ok labels /\
    condition_labels_of df labels 0 cs = Ok ls /\
    length labels = length df /\ length ls = length df /\
    (forall i j, (i < length df)%nat ->
                 (nth_error labels i = Some j <-> In i (nth j cl []))) /\
    forall i p j c,
      nth_error df i = Some p -> In i (nth j cl []) -> nth_error cs j = Some c ->
      (nth_error ls i = Some "Optimal"%string <-> euclidean_distance p c <= 2) /\
      (nth_error ls i = Some "Non-optimal"%string <-> 2 < euclidean_distance p c).
Proof.
  intros Ha Hlen.
  destruct (assignment_labels _ _ _ _ Ha) as (labels & Hl & Hll & Hlab).
  assert (Hb : Forall (fun c => (c < length cs)%nat) labels).
  { apply Forall_forall. intros j Hj. apply In_nth_error in Hj. destruct Hj as [i Hi].
    assert (Hi' : (i < length df)%nat) by (rewrite <- Hll; apply nth_error_Some; congruence).
    apply (Hlab i j Hi') in Hi.
    destruct (Nat.lt_ge_cases j (length cl)) as [Hlt | Hge]; [lia |].
    rewrite nth_overflow in Hi by exact Hge. destruct Hi. }
  destruct (condition_labels_of_total cs labels Hb df O) as (ls & Hls & Hlls);
    [simpl; lia |].
  exists labels, ls.
  split; [exact Hl |]. split; [exact Hls |]. split; [exact Hll |].
  split; [exact Hlls |]. split; [exact Hlab |].
  intros i p j c Hp Hin Hc.
  destruct (proj2 (condition_labels_of_spec _ _ _ _ _ Hls) i p Hp)
    as (j' & label & H2 & H3 & H4).
  simpl in H2. assert (Hi : (i < length df)%nat) by (apply nth_error_Some; congruence).
  apply (Hlab i j' Hi) in H2.
  destruct (assignment_step_covers _ _ _ _ Ha i Hi) as (j0 & _ & _ & Huniq).
  rewrite (Huniq _ H2) in H3. rewrite <- (Huniq _ Hin) in H3.
  destruct (condition_label_cases p j cs c label Hc H3) as [Ho Hn].
  rewrite H4. split; split.
  - intros [= E]. now apply Ho.
  - intros Hd. f_equal. now apply Ho.
  - intros [= E]. now apply Hn.
  - intros Hd. f_equal. now apply Hn.
Qed.

(** X12.  After [kmeans_clustering], lines 136-146 give one condition
    label per row, and the row is judged against the centroid of the
    cluster that holds it: "Optimal" exactly when that distance is at most
    2, "Non-optimal" exactly when it is more. *)
Theorem rows_are_judged_against_their_centroid :
  forall (df : DataFrame) (k mi : Z) (rnd : nat -> nat)
         (cl : list (list nat)) (cs : list Point),
    kmeans_clustering df k mi rnd = Ok (cl, cs) ->
    exists labels ls,
      cluster_labels_of df cl = Ok labels /\
      condition_labels_of df labels 0 cs = Ok ls /\
      length ls = length df /\
      forall i p j c,
        nth_error df i = Some p -> In i (nth j cl []) -> nth_error cs j = Some c ->
        (nth_error ls i = Some "Optimal"%string <-> euclidean_distance p c <= 2) /\
        (nth_error ls i = Some "Non-optimal"%string <-> 2 < euclidean_distance p c).
Proof.
  intros df k mi rnd cl cs H.
  destruct (kmeans_clustering_assigned _ _ _ _ _ _ H) as (e & Hrun & prev & Ha).
  pose proof (kmeans_run_lengths _ _ _ _ _ _ _ Hrun) as [Hcl Hcs].
  destruct (labels_after_clustering df k prev cs cl Ha) as (labels & ls & H1 & H2 & _ & H4 & _ & H6);
    [congruence |].
  exists labels, ls. auto.
Qed.

Lemma rows_are_judged_against_their_centroid_witness :
  exists labels ls,
    cluster_labels_of two_rows [[1]; [0]]%nat = Ok labels /\
    condition_labels_of two_rows labels 0 [at_temperature 10; at_temperature 0] = Ok ls /\
    length ls = length two_rows /\
    forall i p j c,
      nth_error two_rows i = Some p -> In i (nth j [[1]; [0]]%nat []) ->
      nth_error [at_temperature 10; at_temperature 0] j = Some c ->
      (nth_error ls i = Some "Optimal"%string <-> euclidean_distance p c <= 2) /\
      (nth_error ls i = Some "Non-optimal"%string <-> 2 < euclidean_distance p c).
Proof.
  apply (rows_are_judged_against_their_centroid two_rows 2 100 first_row).
  unfold kmeans_clustering. rewrite two_rows_converged. reflexivity.
Defined.

(** ** The script on well-formed input *)

Lemma ask_plant_name_accepts (db : plant_db) (name : string) (answers : list string) :
  contains db name = true -> ask_plant_name db name answers = ret name.
Proof. intros H. destruct answers; simpl; now rewrite H. Qed.

Lemma bind_ok {A B : Type} (out : list string) (a : A) (f : A -> M B) :
  bind (out, Ok a) f = ((out ++ printed (f a))%list, value (f a)).
Proof. unfold bind, printed, value. now destruct (f a). Qed.

Lemma ask_plant_name_rejects (db : plant_db) (name : string) (rest : list string) :
  contains db name = true ->
  forall (rejected : list string) (current : string),
    contains db current = false ->
    Forall (fun a => contains db a = false) rejected ->
    ask_plant_name db current (rejected ++ name :: rest)
    = (repeat plant_not_found (length rejected), Ok name).
Proof.
  intros Hname. induction rejected as [| a rej IH]; intros current Hcur Hrej.
  - cbn [app ask_plant_name length repeat]. rewrite Hcur, Hname.
    rewrite bind_ret_l. now apply ask_plant_name_accepts.
  - inversion Hrej as [| ? ? Ha Hrej']; subst.
    cbn [app ask_plant_name length repeat]. rewrite Hcur, Ha.
    rewrite (IH a Ha Hrej'). reflexivity.
Qed.

Lemma ask_plant_name_runs_out (db : plant_db) :
  forall (answers : list string) (current : string),
    contains db current = false ->
    Forall (fun a => contains db a = false) answers ->
    ask_plant_name db current answers
    = (repeat plant_not_found (length answers), Raise EOFError).
Proof.
  induction answers as [| a rest IH]; intros current Hcur Hall.
  - cbn [ask_plant_name]. now rewrite Hcur.
  - inversion Hall as [| ? ? Ha Hrest]; subst.
    cbn [ask_plant_name length repeat]. rewrite Hcur, Ha.
    rewrite (IH a Ha Hrest). reflexivity.
Qed.

Lemma ask_plant_name_result (db : plant_db) :
  forall (answers : list string) (current : string) (out : list string) (name : string),
    ask_plant_name db current answers = (out, Ok name) -> contains db name = true.
Proof.
  induction answers as [| a rest IH]; intros current out name; cbn [ask_plant_name].
  - destruct (contains db current) eqn:E; [| discriminate].
    now intros [= _ <-].
  - destruct (contains db current) eqn:E; [now intros [= _ <-] |].
    destruct (contains db a) eqn:Ea.
    + rewrite bind_ret_l. apply IH.
    + unfold print. rewrite bind_ok.
      destruct (ask_plant_name db a rest) as [out' [n |]] eqn:Er; cbn [value snd];
        [| discriminate].
      intros [= _ <-]. eapply IH; eauto.
Qed.

(** X13.  The prompt of lines 81-84 returns the first answer that names a
    plant of the database, after printing "Plant not found. ..." once for
    each answer before it; whatever it returns is a key of the database;
    and if no answer names a plant it ends when [input] has nothing left
    to read. *)
Theorem prompt_returns_first_known_plant :
  forall (db : plant_db),
    contains db EmptyString = false ->
    (forall rejected name rest,
        Forall (fun a => contains db a = false) rejected ->
        contains db name = true ->
        ask_plant_name db EmptyString (rejected ++ name :: rest)
        = (repeat plant_not_found (length rejected), Ok name)) /\
    (forall answers,
        Forall (fun a => contains db a = false) answers ->
        ask_plant_name db EmptyString answers
        = (repeat plant_not_found (length answers), Raise EOFError)) /\
    (forall answers out name,
        ask_plant_name db EmptyString answers = (out, Ok name) ->
        contains db name = true).
Proof.
  intros db Hempty. split; [| split].
  - intros rejected name rest Hrej Hname. now apply ask_plant_name_rejects.
  - intros answers Hall. now apply ask_plant_name_runs_out.
  - intros answers out name. apply ask_plant_name_result.
Qed.

Lemma prompt_returns_first_known_plant_witness :
  ask_plant_name two_plants EmptyString
    (["tulip"%string; "Rose"%string] ++ "cactus"%string :: ["rose"%string])%list
  = (repeat plant_not_found (length ["tulip"%string; "Rose"%string]), Ok "cactus"%string).
Proof.
  apply (proj1 (prompt_returns_first_known_plant two_plants eq_refl)).
  - repeat constructor.
  - reflexivity.
Defined.

Lemma lookup_contains (db : plant_db) (name : string) :
  contains db name = true ->
  exists ranges, lookup db name = Ok ranges /\ In (name, ranges) db.
Proof.
  unfold contains, lookup. induction db as [| [key r] rest IH]; simpl; [discriminate |].
  destruct (String.eqb_spec key name) as [-> | Hne]; simpl.
  - intros _. exists r. auto.
  - intros H. destruct (IH H) as (ranges & H1 & H2).
    exists ranges. split; [exact H1 | now right].
Qed.









(** ** The plant database as loaded *)

Import Loader.

Lemma lookup_setitem_same (db : plant_db) (key : string) (v : plant_ranges) :
  lookup (setitem db key v) key = Ok v.
Proof.
  unfold lookup. induction db as [| [k v'] rest IH]; simpl.
  - now rewrite String.eqb_refl.
  - destruct (String.eqb k key) eqn:E; simpl; rewrite E; [reflexivity | exact IH].
Qed.

Lemma lookup_setitem_other (db : plant_db) (key key' : string) (v : plant_ranges) :
  key' <> key -> lookup (setitem db key v) key' = lookup db key'.
Proof.
  intros Hne. unfold lookup. induction db as [| [k v'] rest IH]; simpl.
  - destruct (String.eqb_spec key key'); [congruence | reflexivity].
  - destruct (String.eqb_spec k key) as [-> | Hk]; simpl.
    + destruct (String.eqb_spec key key'); [congruence | reflexivity].
    + destruct (String.eqb k key'); [reflexivity | exact IH].
Qed.

Lemma setitem_In (db : plant_db) (key : string) (v : plant_ranges) (entry : string * plant_ranges) :
  In entry (setitem db key v) -> entry = (key, v) \/ In entry db.
Proof.
  induction db as [| [k v'] rest IH]; simpl.
  - intros [<- | []]. now left.
  - destruct (String.eqb_spec k key) as [-> | Hk]; simpl.
    + intros [<- | H]; [now left | right; now right].
    + intros [<- | H]; [right; now left |].
      destruct (IH H) as [-> | H']; [now left | right; now right].
Qed.

Lemma setitem_keys (db : plant_db) (key : string) (v : plant_ranges) :
  map fst (setitem db key v) = map fst db /\ In key (map fst db)
  \/ map fst (setitem db key v) = (map fst db ++ [key])%list /\ ~ In key (map fst db).
Proof.
  induction db as [| [k v'] rest IH]; simpl.
  - right. split; [reflexivity | tauto].
  - destruct (String.eqb_spec k key) as [-> | Hk]; simpl.
    + left. split; [reflexivity | now left].
    + destruct IH as [[E H] | [E H]]; rewrite E.
      * left. split; [reflexivity | now right].
      * right. split; [reflexivity | tauto].
Qed.

Lemma setitem_NoDup (db : plant_db) (key : string) (v : plant_ranges) :
  NoDup (map fst db) -> NoDup (map fst (setitem db key v)).
Proof.
  intros H. destruct (setitem_keys db key v) as [[-> _] | [-> Hn]]; [exact H |].
  now apply NoDup_snoc.
Qed.

Lemma words_not_empty (s : string) : Forall (fun w => w <> EmptyString) (words s).
Proof.
  induction s as [| c r IH]; cbn [words]; [constructor |].
  destruct (is_space c); [exact IH |].
  destruct r as [| c' r']; [repeat constructor; discriminate |].
  destruct (is_space c'); [constructor; [discriminate | exact IH] |].
  destruct (words (String c' r')) as [| w ws]; [repeat constructor; discriminate |].
  inversion IH; subst. constructor; [discriminate | assumption].
Qed.

Lemma lower_not_empty (w : string) : w <> EmptyString -> lower w <> EmptyString.
Proof. destruct w; [congruence | discriminate]. Qed.

(** One line of the file: skipped, added, or too short. *)
Lemma load_lines_skip (line : string) (rest : list string) (db : plant_db) :
  is_data_line line = false -> load_lines (line :: rest) db = load_lines rest db.
Proof. intros H. cbn [load_lines]. now rewrite H. Qed.

Lemma load_lines_add (line : string) (rest : list string) (db : plant_db)
    (w m l t : string) (extra : list string) :
  is_data_line line = true -> words line = w :: m :: l :: t :: extra ->
  load_lines (line :: rest) db
  = load_lines rest (setitem db (lower w)
                       {| moisture_range := m; light_range := l; temp_range := t |}).
Proof. intros H Hw. cbn [load_lines]. now rewrite H, Hw. Qed.

Lemma load_lines_short (line : string) (rest : list string) (db : plant_db) :
  is_data_line line = true -> (length (words line) < 4)%nat ->
  load_lines (line :: rest) db = Raise IndexError.
Proof.
  intros H Hlen. cbn [load_lines]. rewrite H.
  destruct (words line) as [| w [| m [| l [| t extra]]]]; try reflexivity.
  simpl in Hlen. lia.
Qed.

Lemma load_lines_cases (line : string) :
  is_data_line line = false \/
  (is_data_line line = true /\ (length (words line) < 4)%nat) \/
  (is_data_line line = true /\
   exists w m l t extra, words line = w :: m :: l :: t :: extra).
Proof.
  destruct (is_data_line line); [right | now left].
  destruct (words line) as [| w [| m [| l [| t extra]]]]; simpl;
    try (left; split; [reflexivity | lia]).
  right. split; [reflexivity |]. now exists w, m, l, t, extra.
Qed.

Lemma load_lines_app (a b : list string) (db : plant_db) :
  load_lines (a ++ b) db = rbind (load_lines a db) (load_lines b).
Proof.
  revert db. induction a as [| line a IH]; intros db; [reflexivity |].
  destruct (load_lines_cases line) as [H | [[H Hs] | [H (w & m & l & t & extra & Hw)]]].
  - cbn [app]. now rewrite !load_lines_skip.
  - cbn [app]. now rewrite !load_lines_short.
  - cbn [app]. now rewrite !(load_lines_add _ _ _ _ _ _ _ _ H Hw).
Qed.

(** What loading keeps true of the dictionary. *)
Lemma load_lines_entries :
  forall (lines : list string) (db0 db : plant_db),
    load_lines lines db0 = Ok db ->
    (NoDup (map fst db0) -> NoDup (map fst db)) /\
    forall key ranges, In (key, ranges) db ->
      In (key, ranges) db0 \/
      exists line w m l t extra,
        In line lines /\ is_data_line line = true /\
        words line = w :: m :: l :: t :: extra /\
        key = lower w /\
        ranges = {| moisture_range := m; light_range := l; temp_range := t |}.
Proof.
  induction lines as [| line rest IH]; intros db0 db.
  - intros [= <-]. split; [auto |]. intros; now left.
  - destruct (load_lines_cases line) as [H | [[H Hs] | [H (w & m & l & t & extra & Hw)]]].
    + rewrite load_lines_skip by exact H. intros Hl.
      destruct (IH _ _ Hl) as [Hnd Hin]. split; [exact Hnd |].
      intros key ranges Hk. destruct (Hin key ranges Hk) as [? | (ln & ? & ? & ? & ? & ? & ? & ?)];
        [now left |].
      right. exists ln. do 5 eexists. split; [now right | eassumption].
    + rewrite load_lines_short by assumption. discriminate.
    + rewrite (load_lines_add _ _ _ _ _ _ _ _ H Hw). intros Hl.
      destruct (IH _ _ Hl) as [Hnd Hin]. split.
      * intros H0. apply Hnd. now apply setitem_NoDup.
      * intros key ranges Hk.
        destruct (Hin key ranges Hk) as [Hs | (ln & ? & ? & ? & ? & ? & ? & ?)].
        -- apply setitem_In in Hs. destruct Hs as [[= -> ->] | Hs]; [| now left].
           right. exists line, w, m, l, t, extra. repeat split; auto. now left.
        -- right. exists ln. do 5 eexists. split; [now right | eassumption].
Qed.

Lemma is_data_line_not_header (line : string) :
  is_data_line line = true -> String.prefix "Plant" line = false.
Proof.
  unfold is_data_line. destruct (strip line); [discriminate |].
  now destruct (String.prefix "Plant" line).
Qed.

(** X16.  In the dictionary [load_plant_database] returns no plant is
    listed twice, no plant has the empty name, and every entry comes from
    a line of the file that is not blank, does not start with "Plant" (so
    neither the header nor a plant so named is ever loaded) and has at
    least four fields: the key is the first field in lower case, the
    ranges are the three fields after it. *)
Theorem loaded_entries_come_from_data_lines :
  forall (file_name : string) (lines : list string) (db : plant_db),
    value (load_plant_database file_name (Some lines)) = Ok db ->
    NoDup (map fst db) /\
    contains db EmptyString = false /\
    forall key ranges, In (key, ranges) db ->
      exists line w m l t extra,
        In line lines /\
        strip line <> EmptyString /\ String.prefix "Plant" line = false /\
        words line = w :: m :: l :: t :: extra /\
        key = lower w /\
        ranges = {| moisture_range := m; light_range := l; temp_range := t |}.
Proof.
  intros file_name lines db H. cbn in H.
  destruct (load_lines_entries _ _ _ H) as [Hnd Hin].
  assert (Hfrom : forall key ranges, In (key, ranges) db ->
            exists line w m l t extra,
              In line lines /\
              strip line <> EmptyString /\ String.prefix "Plant" line = false /\
              words line = w :: m :: l :: t :: extra /\
              key = lower w /\
              ranges = {| moisture_range := m; light_range := l; temp_range := t |}).
  { intros key ranges Hk.
    destruct (Hin key ranges Hk) as [[] | (line & w & m & l & t & extra & H1 & H2 & H3 & H4 & H5)].
    exists line, w, m, l, t, extra. repeat split; auto.
    - unfold is_data_line in H2. destruct (strip line); [discriminate | discriminate].
    - now apply is_data_line_not_header. }
  split; [apply Hnd; constructor | split; [| exact Hfrom]].
  destruct (contains db EmptyString) eqn:E; [| reflexivity].
  destruct (lookup_contains _ _ E) as (ranges & _ & Hk).
  destruct (Hfrom _ _ Hk) as (line & w & m & l & t & extra & _ & _ & _ & Hw & Hkey & _).
  pose proof (words_not_empty line) as Hne. rewrite Hw in Hne.
  inversion Hne as [| ? ? Hw0 _]; subst.
  destruct (lower_not_empty w Hw0). now symmetry.
Qed.

Lemma loaded_entries_come_from_data_lines_witness :
  NoDup (map fst [("rose"%string,
                   {| moisture_range := "45-65"; light_range := "400-600";
                      temp_range := "15-25" |});
                  ("cactus"%string, cactus)]) /\
  contains [("rose"%string,
             {| moisture_range := "45-65"; light_range := "400-600";
                temp_range := "15-25" |});
            ("cactus"%string, cactus)] EmptyString = false /\
  forall key ranges,
    In (key, ranges) [("rose"%string,
                       {| moisture_range := "45-65"; light_range := "400-600";
                          temp_range := "15-25" |});
                      ("cactus"%string, cactus)] ->
    exists line w m l t extra,
      In line plant_file /\
      strip line <> EmptyString /\ String.prefix "Plant" line = false /\
      words line = w :: m :: l :: t :: extra /\
      key = lower w /\
      ranges = {| moisture_range := m; light_range := l; temp_range := t |}.
Proof.
  exact (loaded_entries_come_from_data_lines "plantdb.txt" plant_file _ eq_refl).
Defined.

Lemma load_lines_keeps (key : string) (v : plant_ranges) :
  forall (after : list string) (db0 db : plant_db),
    lookup db0 key = Ok v ->
    Forall (fun line => is_data_line line = true ->
                        forall w ws, words line = w :: ws -> lower w <> key) after ->
    load_lines after db0 = Ok db ->
    lookup db key = Ok v.
Proof.
  induction after as [| line rest IH]; intros db0 db Hlook Hall.
  - now intros [= <-].
  - inversion Hall as [| ? ? Hline Hrest]; subst.
    destruct (load_lines_cases line) as [H | [[H Hs] | [H (w & m & l & t & extra & Hw)]]].
    + rewrite load_lines_skip by exact H. now apply IH.
    + rewrite load_lines_short by assumption. discriminate.
    + rewrite (load_lines_add _ _ _ _ _ _ _ _ H Hw). apply IH; [| exact Hrest].
      rewrite lookup_setitem_other; [exact Hlook |].
      intros E. apply (Hline H w _ Hw). now symmetry.
Qed.

(** X17.  A plant looked up in the loaded dictionary, by its name in
    lower case, has the ranges of the last line of the file that names
    it, whatever the letter case of the names: a later line for the same
    plant replaces an earlier one. *)
Theorem last_line_of_a_plant_wins :
  forall (file_name : string) (before after : list string) (line : string)
         (w m l t : string) (extra : list string) (db : plant_db),
    value (load_plant_database file_name (Some (before ++ line :: after))) = Ok db ->
    strip line <> EmptyString -> String.prefix "Plant" line = false ->
    words line = w :: m :: l :: t :: extra ->
    Forall (fun later => is_data_line later = true ->
                         forall w' ws, words later = w' :: ws -> lower w' <> lower w)
           after ->
    lookup db (lower w)
    = Ok {| moisture_range := m; light_range := l; temp_range := t |}.
Proof.
  intros file_name before after line w m l t extra db H Hs Hp Hw Hafter.
  cbn in H. rewrite load_lines_app in H.
  destruct (load_lines before []) as [db1 | e]; cbn [rbind] in H; [| discriminate].
  assert (Hd : is_data_line line = true).
  { unfold is_data_line. destruct (strip line); [congruence | now rewrite Hp]. }
  rewrite (load_lines_add _ _ _ _ _ _ _ _ Hd Hw) in H.
  eapply load_lines_keeps; [| exact Hafter | exact H].
  apply lookup_setitem_same.
Qed.

Lemma last_line_of_a_plant_wins_witness :
  lookup [("rose"%string,
           {| moisture_range := "45-65"; light_range := "400-600";
              temp_range := "15-25" |});
          ("cactus"%string, cactus)] (lower "ROSE")
  = Ok {| moisture_range := "45-65"; light_range := "400-600"; temp_range := "15-25" |}.
Proof.
  apply (last_line_of_a_plant_wins "plantdb.txt"
           (firstn 4 plant_file) [] (nth 4 plant_file EmptyString)
           "ROSE" "45-65" "400-600" "15-25" []);
    try reflexivity; [discriminate | constructor].
Defined.

(** X18.  A line that is neither blank nor a header and has fewer than
    four fields makes [load_plant_database] raise [IndexError], which it
    does not catch, provided the lines before it load; nothing of the
    file is returned then. *)
Theorem short_line_aborts_loading :
  forall (file_name : string) (before after : list string) (line : string) (db1 : plant_db),
    load_lines before [] = Ok db1 ->
    strip line <> EmptyString -> String.prefix "Plant" line = false ->
    (length (words line) < 4)%nat ->
    load_plant_database file_name (Some (before ++ line :: after)) = ([], Raise IndexError).
Proof.
  intros file_name before after line db1 Hb Hs Hp Hlen.
  unfold load_plant_database, lift. f_equal.
  rewrite load_lines_app, Hb. cbn [rbind].
  apply load_lines_short; [| exact Hlen].
  unfold is_data_line. destruct (strip line); [congruence | now rewrite Hp].
Qed.

Lemma short_line_aborts_loading_witness :
  load_plant_database "plantdb.txt"
    (Some (firstn 2 plant_file ++ "Fern 40-60 400-600"%string :: skipn 2 plant_file))
  = ([], Raise IndexError).
Proof.
  apply (short_line_aborts_loading "plantdb.txt" (firstn 2 plant_file) (skipn 2 plant_file)
           "Fern 40-60 400-600" [("rose"%string, rose)]);
    try reflexivity; [discriminate | simpl; lia].
Defined.

(** X19.  When the plant file does not exist the script, on three columns
    of 25 values, prints "File plantdb.txt not found." and then "No plant
    data available.", clusters the rows all the same, and stops with
    [NameError]; when a column has not 25 values the plant file is not
    even opened. *)
Theorem script_without_plant_file :
  forall (t m l : list R) (answers : list string) (rnd : nat -> nat),
    (length t = 25%nat -> length m = 25%nat -> length l = 25%nat ->
     (forall j, (rnd j < 25)%nat) ->
     main_with_database t m l None answers rnd
     = (["File plantdb.txt not found."%string; "No plant data available."%string],
        Raise NameError)) /\
    (length t <> 25%nat \/ length m <> 25%nat \/ length l <> 25%nat ->
     forall file, main_with_database t m l file answers rnd
                  = (["Error: The data should contain exactly 25 values for each parameter."%string],
                     Ok None)).
Proof.
  intros t m l answers rnd. split.
  - intros Ht Hm Hl Hrnd. unfold main_with_database. rewrite Ht, Hm, Hl.
    change (negb (25 =? 25)%nat || negb (25 =? 25)%nat || negb (25 =? 25)%nat) with false.
    cbv iota. unfold load_plant_database. rewrite bind_print_ret.
    now rewrite (main_empty_db t m l answers rnd Ht Hm Hl Hrnd).
  - intros H file. unfold main_with_database.
    destruct (Nat.eqb_spec (length t) 25); [| reflexivity].
    destruct (Nat.eqb_spec (length m) 25); [| reflexivity].
    destruct (Nat.eqb_spec (length l) 25); [| reflexivity].
    tauto.
Qed.

Lemma script_without_plant_file_witness :
  main_with_database temperatures moistures light_levels None [] first_row
  = (["File plantdb.txt not found."%string; "No plant data available."%string],
     Raise NameError).
Proof.
  apply (proj1 (script_without_plant_file temperatures moistures light_levels [] first_row));
    try reflexivity.
  intros j. unfold first_row. lia.
Defined.

(** ** The random draws *)

Lemma mapM_ext_in {A B : Type} (f g : A -> result B) (l : list A) :
  (forall a, In a l -> f a = g a) -> mapM f l = mapM g l.
Proof.
  induction l as [| a t IH]; intros H; simpl; [reflexivity |].
  rewrite (H a) by now left. rewrite IH; [reflexivity |].
  intros a' Ha'. apply H. now right.
Qed.

(** X20.  [kmeans_clustering] uses its random source for the [k] initial
    centroids only: two sources that agree on the first [k] draws give the
    same clusters and the same centroids, or the same exception. *)
Theorem only_the_first_k_draws_matter :
  forall (df : DataFrame) (k mi : Z) (rnd rnd' : nat -> nat),
    (forall j, (j < Z.to_nat k)%nat -> rnd j = rnd' j) ->
    kmeans_clustering df k mi rnd = kmeans_clustering df k mi rnd'.
Proof.
  intros df k mi rnd rnd' H. unfold kmeans_clustering, kmeans_run.
  assert (E : initial_centroids df k rnd = initial_centroids df k rnd').
  { unfold initial_centroids. apply mapM_ext_in. intros j Hj.
    apply in_seq in Hj. rewrite H by lia. reflexivity. }
  now rewrite E.
Qed.

Lemma only_the_first_k_draws_matter_witness :
  kmeans_clustering two_rows 2 100 first_row
  = kmeans_clustering two_rows 2 100 (fun j => if (j <? 2)%nat then O else 1%nat).
Proof.
  apply (only_the_first_k_draws_matter two_rows 2 100 first_row
           (fun j => if (j <? 2)%nat then O else 1%nat)).
  intros j Hj. unfold first_row.
  destruct (Nat.ltb_spec j 2) as [_ | Hge]; [reflexivity |].
  change (Z.to_nat 2) with 2%nat in Hj. lia.
Defined.


(** ** The medians *)

Lemma insert_sorted_perm (x : R) (l : list R) : Permutation (insert_sorted x l) (x :: l).
Proof.
  induction l as [| y t IH]; simpl; [reflexivity |].
  destruct (Rleb x y); [reflexivity |].
  rewrite IH. apply perm_swap.
Qed.

Lemma sorted_perm (l : list R) : Permutation (sorted l) l.
Proof.
  unfold sorted. induction l as [| x t IH]; simpl; [reflexivity |].
  rewrite insert_sorted_perm. now constructor.
Qed.

Lemma insert_sorted_ordered (x : R) (l : list R) :
  StronglySorted Rle l -> StronglySorted Rle (insert_sorted x l).
Proof.
  induction 1 as [| y t Ht IH Hy]; simpl; [repeat constructor |].
  destruct (Rleb x y) eqn:E.
  - apply Rleb_true_iff in E. constructor; [now constructor |].
    constructor; [exact E |]. eapply Forall_impl; [| exact Hy]. simpl. intros; lra.
  - apply Rleb_false_iff in E. constructor; [exact IH |].
    rewrite insert_sorted_perm. constructor; [lra | exact Hy].
Qed.

Lemma sorted_ordered (l : list R) : StronglySorted Rle (sorted l).
Proof.
  unfold sorted. induction l as [| x t IH]; simpl; [constructor |].
  now apply insert_sorted_ordered.
Qed.

Lemma ordered_unique (l l' : list R) :
  StronglySorted Rle l -> StronglySorted Rle l' -> Permutation l l' -> l = l'.
Proof.
  intros Hl. revert l'. induction Hl as [| x t Ht IH Hx]; intros l' Hl' Hp.
  - apply Permutation_nil in Hp. now subst.
  - destruct Hl' as [| y t' Ht' Hy].
    + apply Permutation_sym, Permutation_nil in Hp. discriminate.
    + assert (x = y).
      { assert (Hxy : In x (y :: t')) by (rewrite <- Hp; now left).
        assert (Hyx : In y (x :: t)) by (rewrite Hp; now left).
        rewrite Forall_forall in Hx, Hy.
        destruct Hxy as [-> | Hxy]; [reflexivity |].
        destruct Hyx as [-> | Hyx]; [reflexivity |].
        pose proof (Hx _ Hyx). pose proof (Hy _ Hxy). lra. }
      subst y. f_equal. apply IH; [exact Ht' |].
      eapply Permutation_cons_inv; eauto.
Qed.

Lemma ordered_around (a b : list R) (x : R) :
  StronglySorted Rle (a ++ x :: b) ->
  Forall (fun y => y <= x) a /\ Forall (fun y => x <= y) b.
Proof.
  induction a as [| y a IH]; simpl; intros H; inversion H as [| ? ? Ht Hy]; subst.
  - split; [constructor | exact Hy].
  - destruct (IH Ht) as [H1 H2]. split; [| exact H2]. constructor; [| exact H1].
    rewrite Forall_forall in Hy. apply Hy. apply in_or_app. right. now left.
Qed.

(** X15.  The median the script takes of a column with an odd number of
    values, such as its 25, is a value of the column with as many values
    at most it as at least it; and the median of a column, of any length,
    does not depend on the order of its values. *)
Theorem median_is_the_middle_value :
  (forall (l : list R) (h : nat),
      length l = (2 * h + 1)%nat ->
      exists lows highs,
        Permutation l (lows ++ median l :: highs) /\
        length lows = h /\ length highs = h /\
        Forall (fun y => y <= median l) lows /\
        Forall (fun y => median l <= y) highs) /\
  (forall l l' : list R, Permutation l l' -> median l = median l').
Proof.
  split.
  - intros l h Hlen.
    assert (Hs : length (sorted l) = (2 * h + 1)%nat)
      by (rewrite (Permutation_length (sorted_perm l)); exact Hlen).
    assert (Hmed : median l = nth h (sorted l) 0).
    { unfold median. rewrite Hlen, Nat.even_odd. f_equal.
      replace (2 * h + 1)%nat with (h * 2 + 1)%nat by lia.
      rewrite Nat.div_add_l by lia. simpl. lia. }
    destruct (nth_split (sorted l) 0 (n := h)) as (lows & highs & Hsplit & Hlows); [lia |].
    rewrite <- Hmed in Hsplit.
    exists lows, highs. split; [| split; [exact Hlows | split]].
    + rewrite <- Hsplit. symmetry. apply sorted_perm.
    + rewrite Hsplit, length_app in Hs. simpl in Hs. lia.
    + apply (ordered_around lows highs). rewrite <- Hsplit. apply sorted_ordered.
  - intros l l' Hp.
    assert (E : sorted l = sorted l').
    { apply ordered_unique; try apply sorted_ordered.
      rewrite !sorted_perm. exact Hp. }
    unfold median. now rewrite E, (Permutation_length Hp).
Qed.

Lemma median_is_the_middle_value_witness :
  exists lows highs,
    Permutation temperatures (lows ++ median temperatures :: highs) /\
    length lows = 12%nat /\ length highs = 12%nat /\
    Forall (fun y => y <= median temperatures) lows /\
    Forall (fun y => median temperatures <= y) highs.
Proof.
  exact (proj1 median_is_the_middle_value temperatures 12%nat eq_refl).
Defined.
